(** * Empathic Listener: the request/response orchestration of App.jsx

    A shallow embedding of the pure helpers ([clamp], [sentimentScore],
    [routeSlashCommand], [enhancePrompt]) and of the two asynchronous
    operations ([send], [importChat]) of the single-file React client,
    followed by the properties proved about them.

    Conventions.
    - A JS string is a [string]: the bytes of its UTF-8 encoding.  All
      needles the program searches for (keywords, command names, ['/'],
      [' ']) are ASCII, and an ASCII byte never occurs inside a multi-byte
      UTF-8 sequence, so searching bytes and searching UTF-16 code units
      agree.
    - A JS number is a [jsnum]: NaN, the two infinities, or a finite value
      carried as a rational.  The program only compares numbers, it never
      computes with them, so no rounding is involved.
    - [async] code is cut at its [await]s: what runs between two awaits is a
      function on the [World]; the suspended rest of [send] is a value. *)

From Stdlib Require Import ZArith QArith String Ascii List Bool Lia.
From stdpp Require Import gmap strings.
Import ListNotations.

Local Open Scope Z_scope.
Local Open Scope string_scope.

(* ===================================================================== *)
(** ** JS strings *)
(* ===================================================================== *)

Module JsString.

Definition code (c : ascii) : N := N_of_ascii c.

Definition nl : string := String (ascii_of_N 10) EmptyString.

(** One-byte white space and line terminators: TAB, LF, VT, FF, CR, SP. *)
Definition ws1 (c : ascii) : bool :=
  ((9 <=? code c) && (code c <=? 13))%N || (code c =? 32)%N.

(** U+00A0, encoded C2 A0. *)
Definition ws2 (c1 c2 : ascii) : bool :=
  ((code c1 =? 194) && (code c2 =? 160))%N.

(** U+1680, U+2000..U+200A, U+2028, U+2029, U+202F, U+205F, U+3000 and
    U+FEFF, each three bytes long. *)
Definition ws3 (c1 c2 c3 : ascii) : bool :=
  let a := code c1 in
  let b := code c2 in
  let c := code c3 in
  ((a =? 225) && (b =? 154) && (c =? 128)
   || (a =? 226) && (b =? 128)
      && ((128 <=? c) && (c <=? 138) || (c =? 168) || (c =? 169) || (c =? 175))
   || (a =? 226) && (b =? 129) && (c =? 159)
   || (a =? 227) && (b =? 128) && (c =? 128)
   || (a =? 239) && (b =? 187) && (c =? 191))%N.

(** [s.trimStart()]. *)
Fixpoint trimStart (s : string) : string :=
  match s with
  | EmptyString => EmptyString
  | String c1 r1 =>
      if ws1 c1 then trimStart r1
      else match r1 with
           | EmptyString => s
           | String c2 r2 =>
               if ws2 c1 c2 then trimStart r2
               else match r2 with
                    | EmptyString => s
                    | String c3 r3 =>
                        if ws3 c1 c2 c3 then trimStart r3 else s
                    end
           end
  end.

Fixpoint rev_append (s acc : string) : string :=
  match s with
  | EmptyString => acc
  | String c r => rev_append r (String c acc)
  end.

Definition reverse (s : string) : string := rev_append s EmptyString.

(** [trimStart] on the mirror image: the bytes of a white-space character
    arrive last byte first. *)
Fixpoint trimStart_mirror (s : string) : string :=
  match s with
  | EmptyString => EmptyString
  | String c1 r1 =>
      if ws1 c1 then trimStart_mirror r1
      else match r1 with
           | EmptyString => s
           | String c2 r2 =>
               if ws2 c2 c1 then trimStart_mirror r2
               else match r2 with
                    | EmptyString => s
                    | String c3 r3 =>
                        if ws3 c3 c2 c1 then trimStart_mirror r3 else s
                    end
           end
  end.

Definition trimEnd (s : string) : string :=
  reverse (trimStart_mirror (reverse s)).

(** [s.trim()]. *)
Definition trim (s : string) : string := trimEnd (trimStart s).

Definition lower_ascii (c : ascii) : ascii :=
  if ((65 <=? code c) && (code c <=? 90))%N
  then ascii_of_N (code c + 32)
  else c.

(** [s.toLowerCase()], on the ASCII letters.  Outside ASCII the only
    characters whose lower case contains an ASCII letter are U+212A
    (giving [k]) and U+0130 (giving [i] followed by U+0307); no keyword
    or command name contains [k], none ends in [i], and none contains
    U+0307, so every test the program makes on a lower-cased string has
    the same outcome. *)
Fixpoint toLowerCase (s : string) : string :=
  match s with
  | EmptyString => EmptyString
  | String c r => String (lower_ascii c) (toLowerCase r)
  end.

(** [s.startsWith(p)]. *)
Fixpoint startsWith (s p : string) : bool :=
  match p, s with
  | EmptyString, _ => true
  | String _ _, EmptyString => false
  | String a p', String b s' => Ascii.eqb a b && startsWith s' p'
  end.

(** [s.includes(w)]. *)
Fixpoint includes (s w : string) : bool :=
  startsWith s w
  || match s with
     | EmptyString => false
     | String _ r => includes r w
     end.

(** [s.slice(1)]. *)
Definition slice1 (s : string) : string :=
  match s with
  | EmptyString => EmptyString
  | String _ r => r
  end.

Definition space : ascii := " "%char.

(** [s.split(' ')]: never empty, [''.split(' ')] is [['']]. *)
Fixpoint split_space (s : string) : list string :=
  match s with
  | EmptyString => [EmptyString]
  | String c r =>
      if Ascii.eqb c space then EmptyString :: split_space r
      else match split_space r with
           | [] => [String c EmptyString]
           | h :: t => String c h :: t
           end
  end.

(** [l.join(' ')]. *)
Fixpoint join_space (l : list string) : string :=
  match l with
  | [] => EmptyString
  | [x] => x
  | x :: r => x ++ String space (join_space r)
  end.

(** Truthiness of a string: only [''] is falsy. *)
Definition truthy (s : string) : bool := negb (String.eqb s EmptyString).

End JsString.
Import JsString.

(* ===================================================================== *)
(** ** Sentiment Hinter *)
(* ===================================================================== *)

Definition NEG : list string :=
  [ "sad"; "depressed"; "anxious"; "anxiety"; "stressed"; "alone"; "lonely";
    "angry"; "upset"; "hurt"; "ashamed"; "guilty"; "tired"; "overwhelmed";
    "panic"; "cry"; "hate"; "worthless"; "failure"; "lost"; "hopeless";
    "suicidal" ].

Definition POS : list string :=
  [ "grateful"; "happy"; "hopeful"; "excited"; "proud"; "calm"; "relieved";
    "love"; "optimistic"; "progress"; "peace" ].

(** [sentimentScore(text)]: the two [forEach] loops are folds over the
    keyword arrays, threading the counter [s]. *)
Definition sentimentScore (text : string) : Z :=
  if negb (truthy text) then 0%Z
  else
    let t := toLowerCase text in
    let s := fold_left (fun s w => if includes t w then (s - 1)%Z else s) NEG 0%Z in
    fold_left (fun s w => if includes t w then (s + 1)%Z else s) POS s.

(* ===================================================================== *)
(** ** Prompt Composer *)
(* ===================================================================== *)

Definition summarize_template : string :=
  "Summarize this in 3 bullets and 1 next step." ++ nl ++ nl.
Definition reframe_template : string :=
  "Reframe this thought compassionately and propose one experiment." ++ nl ++ nl.
Definition coach_template : string :=
  "Act as a supportive coach: ask one clarifying question, then suggest a next action."
  ++ nl ++ nl.
Definition journal_template : string :=
  "Help me journal: give a 4-line guided prompt, then hold space for 60 seconds (describe a quick breathing anchor)."
  ++ nl ++ nl.

(** [routeSlashCommand(text)]. *)
Definition routeSlashCommand (text : string) : string :=
  let t := trim text in
  if startsWith t "/" then
    match split_space (slice1 t) with
    | [] => text
    | cmd :: rest =>
        let body := join_space rest in
        let c := toLowerCase cmd in
        if String.eqb c "summarize" then summarize_template ++ body
        else if String.eqb c "reframe" then reframe_template ++ body
        else if String.eqb c "coach" then coach_template ++ body
        else if String.eqb c "journal" then journal_template ++ body
        else text
    end
  else text.

Definition toneHint (sScore : Z) : string :=
  if (sScore <? 0)%Z then "gentle, validating, non-judgmental"
  else if (0 <? sScore)%Z then "encouraging, balanced"
  else "neutral, respectful".

Definition empathicScaffold (empathicMode : bool) : string :=
  if empathicMode
  then nl ++ nl ++
       "Follow this structure briefly: 1) Reflect what you heard, 2) Name underlying needs/values, 3) Offer 2 options (self-care + practical), 4) Ask a small open question."
  else "".

(** [enhancePrompt(raw)]; it reads [state.empathicMode] of the render it
    was created in. *)
Definition enhancePrompt (empathicMode : bool) (raw : string) : string :=
  "You are an empathic, trauma-informed AI listener. Avoid medical/clinical claims. Be kind, concise and specific. Use plain language."
  ++ nl ++ "Tone: " ++ toneHint (sentimentScore raw) ++ "."
  ++ empathicScaffold empathicMode
  ++ nl ++ nl ++ "User message: " ++ raw.

(* ===================================================================== *)
(** ** JS numbers and [clamp] *)
(* ===================================================================== *)

Inductive jsnum : Type :=
| NaN
| NegInf
| Fin (q : Q)
| PosInf.

(** [a <= b] on numbers that are not NaN. *)
Definition num_leb (a b : jsnum) : bool :=
  match a, b with
  | NaN, _ | _, NaN => false
  | NegInf, _ => true
  | _, PosInf => true
  | Fin p, Fin q => Qle_bool p q
  | _, _ => false
  end.

Definition Math_min (a b : jsnum) : jsnum :=
  match a, b with
  | NaN, _ | _, NaN => NaN
  | _, _ => if num_leb a b then a else b
  end.

Definition Math_max (a b : jsnum) : jsnum :=
  match a, b with
  | NaN, _ | _, NaN => NaN
  | _, _ => if num_leb a b then b else a
  end.

(** [clamp = (v, a, b) => Math.max(a, Math.min(v, b))]. *)
Definition clamp (v a b : jsnum) : jsnum := Math_max a (Math_min v b).

(** Truthiness of a number: NaN and zero are falsy. *)
Definition num_truthy (n : jsnum) : bool :=
  match n with
  | NaN => false
  | Fin q => negb (Qeq_bool q 0)
  | _ => true
  end.

(** [n || d] on numbers. *)
Definition num_or (n d : jsnum) : jsnum := if num_truthy n then n else d.

(** [s || d] on strings. *)
Definition str_or (s d : string) : string := if truthy s then s else d.

(* ===================================================================== *)
(** ** Data model *)
(* ===================================================================== *)

Inductive Role : Type := user | assistant.

(** A chat entry.  The optional flags [cached] and [error] are only ever
    written as [true]; an absent flag reads as [false]. *)
Record Message : Type := mkMessage {
  role : Role;
  text : string;
  ts : string;
  cached : bool;
  error : bool
}.

Record Preset : Type := mkPreset {
  label : string;
  prompt : string
}.

(** The object held by [useLocalStorageState].  The three generation
    parameters are kept as the number [Number(...)] makes of the stored
    value (the stored value itself when it is a number). *)
Record State : Type := mkState {
  apiKey : string;
  temperature : jsnum;
  topP : jsnum;
  topK : jsnum;
  quickReplies : bool;
  empathicMode : bool;
  model : string;
  chat : list Message;
  input : string;
  presets : list Preset
}.

Definition with_chat_input (c : list Message) (i : string) (s : State) : State :=
  mkState (apiKey s) (temperature s) (topP s) (topK s) (quickReplies s)
          (empathicMode s) (model s) c i (presets s).

(** [{ ...s, chat: [...s.chat, m] }]. *)
Definition append_message (m : Message) (s : State) : State :=
  with_chat_input (chat s ++ [m])%list (input s) s.

(** [{ ...s, chat: [...s.chat, m], input: '' }]. *)
Definition append_and_clear (m : Message) (s : State) : State :=
  with_chat_input (chat s ++ [m])%list "" s.

(** [{ ...s, input: v }]. *)
Definition with_input (v : string) (s : State) : State :=
  with_chat_input (chat s) v s.

Record GenerationConfig : Type := mkGenerationConfig {
  gc_temperature : jsnum;
  gc_topP : jsnum;
  gc_topK : jsnum;
  candidateCount : Z
}.

Record Content : Type := mkContent {
  content_role : Role;
  parts : list string
}.

Record Payload : Type := mkPayload {
  contents : list Content;
  generationConfig : GenerationConfig
}.

(** What the remote endpoint can answer to one [axios.post]. *)
Inductive Response : Type :=
| Resolved (candidate_text : option string)
    (** the promise resolves; the argument is
        [res?.data?.candidates?.[0]?.content?.parts?.[0]?.text] *)
| HttpError (status : Z) (message : option string)
    (** an AxiosError with a response; the second argument is
        [err.response?.data?.error?.message] *)
| NetworkError.
    (** an AxiosError without a response *)

(** What the outside world sees the program do. *)
Inductive Effect : Type :=
| Alert (msg : string)
| ConsoleError
| Post (url : string) (body : Payload)
| Sleep (ms : Z).

(** Everything [send] can read or write.  [clock] and [reads] stand for
    the wall clock: the n-th call of [nowISO()] returns [clock n]. *)
Record World : Type := mkWorld {
  state : State;
  busy : bool;
  cacheRef : gmap string string;
  VITE_API_GENERATIVE_LANGUAGE_CLIENT : option string;
  clock : nat -> string;
  reads : nat
}.

Definition setState (f : State -> State) (w : World) : World :=
  mkWorld (f (state w)) (busy w) (cacheRef w)
          (VITE_API_GENERATIVE_LANGUAGE_CLIENT w) (clock w) (reads w).

Definition setBusy (b : bool) (w : World) : World :=
  mkWorld (state w) b (cacheRef w)
          (VITE_API_GENERATIVE_LANGUAGE_CLIENT w) (clock w) (reads w).

(** [cacheRef.current.set(k, v)]. *)
Definition cache_set (k v : string) (w : World) : World :=
  mkWorld (state w) (busy w) (<[k:=v]> (cacheRef w))
          (VITE_API_GENERATIVE_LANGUAGE_CLIENT w) (clock w) (reads w).

(** [nowISO()]. *)
Definition nowISO (w : World) : string * World :=
  (clock w (reads w),
   mkWorld (state w) (busy w) (cacheRef w)
           (VITE_API_GENERATIVE_LANGUAGE_CLIENT w) (clock w) (S (reads w))).

(** Append [{ role, text, ts: nowISO(), ... }] to the chat. *)
Definition say (r : Role) (t : string) (is_cached is_error : bool) (w : World) : World :=
  let '(now, w1) := nowISO w in
  setState (append_message (mkMessage r t now is_cached is_error)) w1.

(* ===================================================================== *)
(** ** Completion Client: [send] *)
(* ===================================================================== *)

Definition GEMINI_ENDPOINT (key : string) : string :=
  "https://generativelanguage.googleapis.com/v1beta/models/gemini-2.0-flash:generateContent?key="
  ++ key.

Definition MAX_ATTEMPTS : Z := 3.

Definition missing_key_notice : string :=
  "Missing API key. Paste your Google Generative Language API key in Settings (gear icon).".

Definition generic_failure : string :=
  "Sorry, something went wrong. Please try again.".

(** The bytes of U+1FAF6, a space and two line feeds. *)
Definition empathic_header : string :=
  String (ascii_of_N 240) (String (ascii_of_N 159)
    (String (ascii_of_N 171) (String (ascii_of_N 182) " ")))
  ++ nl ++ nl.

(** The constants of one call of [send]: [state] is the object of the
    render the handler was created in, not the live cell. *)
Record Closure : Type := mkClosure {
  question : string;
  key : string;
  enhanced : string;
  rendered : State
}.

(** The live locals of the retry loop. *)
Record Frame : Type := mkFrame {
  clo : Closure;
  attempt : Z;
  delay : Z
}.

(** Where a call of [send] is suspended. *)
Inductive Susp : Type :=
| AwaitPost (f : Frame)
| AwaitSleep (f : Frame).

Definition Step : Type := World * list Effect * option Susp.

(** The [payload] object literal. *)
Definition payload_of (c : Closure) : Payload :=
  mkPayload
    [mkContent user [enhanced c]]
    (mkGenerationConfig
       (clamp (num_or (temperature (rendered c)) (Fin (7 # 10))) (Fin 0) (Fin 2))
       (clamp (num_or (topP (rendered c)) (Fin (95 # 100))) (Fin 0) (Fin 1))
       (clamp (num_or (topK (rendered c)) (Fin 40)) (Fin 1) (Fin 200))
       1).

(** The loop test and the [try] block up to [await axios.post(...)]. *)
Definition loop_head (f : Frame) (w : World) : Step :=
  if (attempt f <? MAX_ATTEMPTS)%Z
  then (w, [Post (GEMINI_ENDPOINT (key (clo f))) (payload_of (clo f))],
        Some (AwaitPost f))
  else (w, [], None).

(** The text the [try] block goes on with; [None] when it throws, either
    because the post rejected or because the text is falsy. *)
Definition reply_text (r : Response) : option string :=
  match r with
  | Resolved (Some t) => if truthy t then Some t else None
  | _ => None
  end.

(** [axios.isAxiosError(err) && err.response?.status === 429]. *)
Definition is_429 (r : Response) : bool :=
  match r with
  | HttpError st _ => (st =? 429)%Z
  | _ => false
  end.

(** The [msg] of the [catch] block. *)
Definition failure_message (r : Response) : string :=
  match r with
  | HttpError _ (Some m) => if truthy m then m else generic_failure
  | _ => generic_failure
  end.

Definition wrap_reply (c : Closure) (t : string) : string :=
  if (sentimentScore (question c) <? 0)%Z && empathicMode (rendered c)
  then empathic_header ++ t
  else t.

(** From the settling of [axios.post] to the next suspension or the end.
    [finally { setBusy(false) }] belongs to the [try] inside the loop, so
    it runs when the iteration is left by [break]; on the 429 path the
    iteration is not left before the sleep is over. *)
Definition on_reply (r : Response) (f : Frame) (w : World) : Step :=
  match reply_text r with
  | Some t =>
      let wrap := wrap_reply (clo f) t in
      let w1 := cache_set (question (clo f)) wrap w in
      let w2 := say assistant wrap false false w1 in
      (setBusy false w2, [], None)
  | None =>
      let attempt' := (attempt f + 1)%Z in
      if is_429 r && (attempt' <? MAX_ATTEMPTS)%Z
      then (w, [ConsoleError; Sleep (delay f)],
            Some (AwaitSleep (mkFrame (clo f) attempt' (delay f))))
      else
        let w1 := say assistant (failure_message r) false true w in
        (setBusy false w1, [ConsoleError], None)
  end.

(** From the end of [await sleep(delay)]: [delay *= 2; continue], the
    [finally] block, then the next iteration. *)
Definition on_timer (f : Frame) (w : World) : Step :=
  loop_head (mkFrame (clo f) (attempt f) (delay f * 2)%Z) (setBusy false w).

(** [send], from the call to its first suspension or its return. *)
Definition send_begin (w : World) : Step :=
  let question := trim (input (state w)) in
  if negb (truthy question) || busy w then (w, [], None)
  else
    let apiKey :=
      str_or (apiKey (state w))
             (str_or (default "" (VITE_API_GENERATIVE_LANGUAGE_CLIENT w)) "") in
    if negb (truthy apiKey) then (w, [Alert missing_key_notice], None)
    else
      let '(now, w1) := nowISO w in
      let outgoing := mkMessage user question now false false in
      let w2 := setState (append_and_clear outgoing) w1 in
      match cacheRef w2 !! question with
      | Some hit => (say assistant hit true false w2, [], None)
      | None =>
          let w3 := setBusy true w2 in
          let c := mkClosure question apiKey
                     (enhancePrompt (empathicMode (state w))
                                    (routeSlashCommand question))
                     (state w) in
          loop_head (mkFrame c 0 1200) w3
      end.

Definition then_step (e : list Effect) (s : Step) : Step :=
  let '(w, e', k) := s in (w, (e ++ e')%list, k).

(** A suspended call driven by the answers of the endpoint, in order;
    every timer it starts is let run out.  With too few answers the call
    is left suspended at its post. *)
Fixpoint drive (rs : list Response) (f : Frame) (w : World) : Step :=
  match rs with
  | [] => (w, [], Some (AwaitPost f))
  | r :: rs' =>
      match on_reply r f w with
      | (w1, e1, Some (AwaitSleep f1)) =>
          match on_timer f1 w1 with
          | (w2, e2, Some (AwaitPost f2)) => then_step (e1 ++ e2)%list (drive rs' f2 w2)
          | (w2, e2, k) => (w2, (e1 ++ e2)%list, k)
          end
      | other => other
      end
  end.

(** One call of [send] run against the answers [rs]. *)
Definition send (rs : list Response) (w : World) : Step :=
  match send_begin w with
  | (w1, e1, Some (AwaitPost f)) => then_step e1 (drive rs f w1)
  | other => other
  end.

(** *** Several calls on one event loop

    Handlers run one at a time.  Each sees the cells as the handler before
    it left them: React renders again after every update, so the [send]
    bound to the button and the [busy] it reads are those of the latest
    render. *)

Inductive Event : Type :=
| UserEdits (v : string)               (** [onChange] of the textarea *)
| UserSends                            (** click on Send, or Enter *)
| Reply (i : nat) (r : Response)       (** the post of call [i] settles *)
| TimerFires (i : nat).                (** the sleep of call [i] is over *)

(** The world and the calls of [send] made so far, each suspended
    ([Some]) or finished ([None]). *)
Record System : Type := mkSystem {
  world : World;
  calls : list (option Susp)
}.

Definition step (e : Event) (sys : System) : System * list Effect :=
  match e with
  | UserEdits v =>
      (mkSystem (setState (with_input v) (world sys)) (calls sys), [])
  | UserSends =>
      let '(w, eff, k) := send_begin (world sys) in
      (mkSystem w (calls sys ++ [k])%list, eff)
  | Reply i r =>
      match calls sys !! i with
      | Some (Some (AwaitPost f)) =>
          let '(w, eff, k) := on_reply r f (world sys) in
          (mkSystem w (<[i:=k]> (calls sys)), eff)
      | _ => (sys, [])
      end
  | TimerFires i =>
      match calls sys !! i with
      | Some (Some (AwaitSleep f)) =>
          let '(w, eff, k) := on_timer f (world sys) in
          (mkSystem w (<[i:=k]> (calls sys)), eff)
      | _ => (sys, [])
      end
  end.

Fixpoint steps (es : list Event) (sys : System) : System * list Effect :=
  match es with
  | [] => (sys, [])
  | e :: es' =>
      let '(sys1, eff1) := step e sys in
      let '(sys2, eff2) := steps es' sys1 in
      (sys2, (eff1 ++ eff2)%list)
  end.

(** The calls of [send] that have not returned yet. *)
Definition in_flight (sys : System) : nat :=
  length (filter (fun k => is_Some k) (calls sys)).

(* ===================================================================== *)
(** ** Import *)
(* ===================================================================== *)

#[warnings="-register-all"]
Inductive json : Type :=
| JNull
| JBool (b : bool)
| JNumber (n : jsnum)
| JString (s : string)
| JArray (items : list json)
| JObject (fields : list (string * json)).

Definition json_truthy (j : json) : bool :=
  match j with
  | JNull => false
  | JBool b => b
  | JNumber n => num_truthy n
  | JString s => truthy s
  | JArray _ | JObject _ => true
  end.

(** [typeof j === 'object']. *)
Definition typeof_object (j : json) : bool :=
  match j with
  | JNull | JArray _ | JObject _ => true
  | _ => false
  end.

Section ImportFile.

(** [JSON.parse]: a value, or the message of the SyntaxError it throws. *)
Variable JSON_parse : string -> string + json.

(** [importChat(file)] once [file.text()] has delivered [contents].  The
    state cell is seen here as the JS value it holds, since [setState(data)]
    stores any accepted value as it is.  The result is the new cell and
    the effects. *)
Definition importChat (contents : string) (cell : json) : json * list Effect :=
  match JSON_parse contents with
  | inl message => (cell, [Alert ("Import failed: " ++ message)])
  | inr data =>
      if negb (json_truthy data) || negb (typeof_object data)
      then (cell, [Alert ("Import failed: " ++ "Invalid file")])
      else (data, [])
  end.

End ImportFile.

(* ===================================================================== *)
(** ** Vocabulary of the statements *)
(* ===================================================================== *)

(** The initial object of [useLocalStorageState(LOCAL_KEY, ...)]. *)
Definition initial_state : State :=
  mkState "" (Fin (7 # 10)) (Fin (95 # 100)) (Fin 40) true true
    "gemini-2.0-flash" [] ""
    [ mkPreset "Empathic"
        "Please listen with empathy and reflect feelings, needs, and offer gentle next steps.";
      mkPreset "Coach"
        "Act as a supportive life coach. Ask one clarifying question, then suggest a next action.";
      mkPreset "Solution"
        "Be concise and solution-focused: summarize problem in one line; list 3 options; ask for preference.";
      mkPreset "Journal"
        "You are a reflective journaling companion. Reframe my thoughts without judgment and suggest a 2-minute exercise." ].

(** A fresh page: initial state, nothing cached, no send under way. *)
Definition fresh_world : World :=
  mkWorld initial_state false ∅ None (fun _ => "2025-01-01T00:00:00.000Z") 0.

Definition with_apiKey (k : string) (s : State) : State :=
  mkState k (temperature s) (topP s) (topK s) (quickReplies s)
          (empathicMode s) (model s) (chat s) (input s) (presets s).

Definition with_params (t p k : jsnum) (s : State) : State :=
  mkState (apiKey s) t p k (quickReplies s)
          (empathicMode s) (model s) (chat s) (input s) (presets s).

(** A page on which the user has entered a key and typed [v]. *)
Definition typed_world (k v : string) : World :=
  setState (fun s => with_input v (with_apiKey k s)) fresh_world.

(** The key [send] would use. *)
Definition configured_key (w : World) : string :=
  str_or (apiKey (state w))
         (str_or (default "" (VITE_API_GENERATIVE_LANGUAGE_CLIENT w)) "").

(** The call passes both guards and misses the cache. *)
Definition reaches_network (w : World) : bool :=
  truthy (trim (input (state w)))
  && negb (busy w)
  && truthy (configured_key w)
  && bool_decide (cacheRef w !! trim (input (state w)) = None).

Definition posts (es : list Effect) : list Payload :=
  flat_map (fun e => match e with Post _ p => [p] | _ => [] end) es.

Definition sleeps (es : list Effect) : list Z :=
  flat_map (fun e => match e with Sleep ms => [ms] | _ => [] end) es.

Definition alerts (es : list Effect) : list string :=
  flat_map (fun e => match e with Alert m => [m] | _ => [] end) es.

Definition in_range (lo hi x : jsnum) : bool := num_leb lo x && num_leb x hi.

(** The command table of the Prompt Composer. *)
Definition template_of (cmd : string) : option string :=
  if String.eqb cmd "summarize" then Some summarize_template
  else if String.eqb cmd "reframe" then Some reframe_template
  else if String.eqb cmd "coach" then Some coach_template
  else if String.eqb cmd "journal" then Some journal_template
  else None.

(** The command token: what precedes the first space. *)
Fixpoint command_token (s : string) : string :=
  match s with
  | EmptyString => EmptyString
  | String c r => if Ascii.eqb c space then EmptyString else String c (command_token r)
  end.

(** The remainder body: what follows the first space. *)
Fixpoint remainder_body (s : string) : string :=
  match s with
  | EmptyString => EmptyString
  | String c r => if Ascii.eqb c space then r else remainder_body r
  end.

(** A value counts as a non-null object when [typeof] says object and it
    is not [null]; arrays are objects. *)
Definition non_null_object (j : json) : Prop :=
  typeof_object j = true /\ j <> JNull.

(** The closure a call of [send] on [w] works with. *)
Definition closure_of (w : World) : Closure :=
  mkClosure (trim (input (state w))) (configured_key w)
            (enhancePrompt (empathicMode (state w))
                           (routeSlashCommand (trim (input (state w)))))
            (state w).

(** [w] once the user's message is in the chat and the input is cleared. *)
Definition outgoing_posted (w : World) : World :=
  let '(now, w1) := nowISO w in
  setState (append_and_clear (mkMessage user (trim (input (state w))) now false false)) w1.

Definition world_of (s : Step) : World := fst (fst s).
Definition effects_of (s : Step) : list Effect := snd (fst s).
Definition rest_of (s : Step) : option Susp := snd s.

(** A page whose stored temperature is 5 and whose stored topK is 0, with
    a key entered and [hi] typed. *)
Definition out_of_range_world : World :=
  setState (with_params (Fin 5) (Fin (95 # 100)) (Fin 0)) (typed_world "k" "hi").

(** The world the first send of [I feel sad] leaves when its first attempt
    is rate limited and its second answered. *)
Definition after_first_send : World :=
  world_of (send [HttpError 429 None; Resolved (Some "I hear you.")]
                 (typed_world "k" "I feel sad")).

(** Later in that session: the same words typed again, padded with blanks. *)
Definition second_visit : World :=
  setState (with_input "  I feel sad ") after_first_send.

(** Still later: another question has been asked and answered in between,
    then the first words are typed once more. *)
Definition after_other_send : World :=
  world_of (send [Resolved (Some "Of course.")]
                 (setState (with_input "Tell me more") after_first_send)).

Definition third_visit : World :=
  setState (with_input "  I feel sad ") after_other_send.

(** A page just loaded, no call of [send] made yet. *)
Definition boot (w : World) : System := mkSystem w [].

(** The number of keywords of [ws] that occur in [text], letter case
    aside; a keyword occurring twice counts once. *)
Definition hits (ws : list string) (text : string) : Z :=
  Z.of_nat (length (List.filter (includes (toLowerCase text)) ws)).

(** [text] followed by [n] times a blank and the word [kw]. *)
Fixpoint add_word (n : nat) (kw text : string) : string :=
  match n with
  | O => text
  | S n' => add_word n' kw (text ++ String space kw)
  end.

Fixpoint mentions (c : ascii) (s : string) : bool :=
  match s with
  | EmptyString => false
  | String a r => Ascii.eqb a c || mentions c r
  end.

Definition keywords : list string := (NEG ++ POS)%list.

(** A keyword is not empty, has no blank and is in lower case. *)
Definition keyword_ok (w : string) : bool :=
  truthy w && negb (mentions space w) && String.eqb (toLowerCase w) w.

(** Among the keywords, [w] occurs in [kw] only when it is [kw]. *)
Definition keywords_apart : bool :=
  forallb (fun kw =>
             forallb (fun w => Bool.eqb (includes kw w) (String.eqb w kw)) keywords)
          keywords.

(** A parser that knows three files, for trying [importChat] out. *)
Definition toy_parse (s : string) : string + json :=
  if String.eqb s "{}" then inr (JObject [])
  else if String.eqb s "[1]" then inr (JArray [JNumber (Fin 1)])
  else if String.eqb s "null" then inr JNull
  else inl "Unexpected token".

(* ===================================================================== *)
(** ** The other handlers of the page *)
(* ===================================================================== *)

(** [{ ...s, chat: c }]. *)
Definition with_chat (c : list Message) (s : State) : State :=
  with_chat_input c (input s) s.

Definition with_empathicMode (b : bool) (s : State) : State :=
  mkState (apiKey s) (temperature s) (topP s) (topK s) (quickReplies s)
          b (model s) (chat s) (input s) (presets s).

Definition with_quickReplies (b : bool) (s : State) : State :=
  mkState (apiKey s) (temperature s) (topP s) (topK s) b
          (empathicMode s) (model s) (chat s) (input s) (presets s).

Definition with_presets (l : list Preset) (s : State) : State :=
  mkState (apiKey s) (temperature s) (topP s) (topK s) (quickReplies s)
          (empathicMode s) (model s) (chat s) (input s) l.

(** [clearChat]; the argument is what [confirm('Clear all messages?')]
    returns. *)
Definition clearChat (confirmed : bool) (s : State) : State :=
  if confirmed then with_chat [] s else s.

Definition base_replies : list string :=
  [ "Tell me more"; "That resonates"; "Can you give examples?";
    "What's one next step?"; "Reframe this kindly" ].

Definition is_assistant (m : Message) : bool :=
  match role m with
  | assistant => true
  | user => false
  end.

(** [[...state.chat].reverse().find((m) => m.role === 'assistant')]. *)
Definition last_assistant (c : list Message) : option Message :=
  List.find is_assistant (rev c).

(** The [quickReplies] memo: [unshift] puts the two tone replies in front
    of [base], [slice(0, 5)] keeps the first five. *)
Definition quickReplies_memo (s : State) : list string :=
  if negb (quickReplies s) then []
  else
    match last_assistant (chat s) with
    | None => []
    | Some last =>
        let base :=
          if (sentimentScore (text last) <? 0)%Z
          then "I feel overwhelmed" :: "I need reassurance" :: base_replies
          else "Sounds good" :: "Let's plan a step" :: base_replies in
        firstn 5 base
    end.

(** The click on a quick reply:
    [{ ...s, input: (s.input ? s.input + ' ' : '') + q }]. *)
Definition click_quick_reply (q : string) (s : State) : State :=
  with_input ((if truthy (input s) then input s ++ " " else "") ++ q) s.

(** The click on a preset pill: [{ ...s, input: p.prompt }]. *)
Definition click_preset (p : Preset) (s : State) : State :=
  with_input (prompt p) s.

(** [classNames(...xs)]: [xs.filter(Boolean).join(' ')], on strings. *)
Definition classNames (xs : list string) : string :=
  join_space (List.filter truthy xs).

Module PresetEditor.

Inductive Field : Type := label_field | prompt_field.

(** [{ ...x, [field]: val }]. *)
Definition set_field (field : Field) (val : string) (x : Preset) : Preset :=
  match field with
  | label_field => mkPreset val (prompt x)
  | prompt_field => mkPreset (label x) val
  end.

(** [p.map((x, idx) => ...)], the index of the head being [k]. *)
Fixpoint map_from (f : nat -> Preset -> Preset) (k : nat) (p : list Preset)
  : list Preset :=
  match p with
  | [] => []
  | x :: r => f k x :: map_from f (S k) r
  end.

(** [p.filter((x, idx) => ...)], the index of the head being [k]. *)
Fixpoint filter_from (keep : nat -> Preset -> bool) (k : nat) (p : list Preset)
  : list Preset :=
  match p with
  | [] => []
  | x :: r => if keep k x then x :: filter_from keep (S k) r
              else filter_from keep (S k) r
  end.

(** [update(i, field, val)] on the local copy. *)
Definition update (i : nat) (field : Field) (val : string) (p : list Preset)
  : list Preset :=
  map_from (fun idx x => if Nat.eqb idx i then set_field field val x else x) 0 p.

(** [add()]. *)
Definition add (p : list Preset) : list Preset :=
  (p ++ [mkPreset "New" "Describe how I should respond"])%list.

(** [remove(i)]. *)
Definition remove (i : nat) (p : list Preset) : list Preset :=
  filter_from (fun idx _ => negb (Nat.eqb idx i)) 0 p.

End PresetEditor.

(* ===================================================================== *)
(** ** Persistence: [useLocalStorageState] *)
(* ===================================================================== *)

(** What [localStorage.getItem(key)] does. *)
Inductive StorageRead : Type :=
| ReadThrows
| ReadNull
| ReadValue (raw : string).

Section Persistence.

Variable JSON_parse : string -> string + json.
Variable JSON_stringify : json -> string.

(** The initialiser of the state cell. *)
Definition load (initial : json) (r : StorageRead) : json :=
  match r with
  | ReadValue raw =>
      if truthy raw
      then match JSON_parse raw with
           | inr v => v
           | inl _ => initial
           end
      else initial
  | _ => initial
  end.





End Persistence.

(* ===================================================================== *)
(** ** The page as a whole *)
(* ===================================================================== *)

(** Everything the user and the outside can do to the page, import apart. *)
Inductive UiEvent : Type :=
| Core (e : Event)
| SetApiKey (v : string)
| SetTemperature (v : jsnum)
| SetTopP (v : jsnum)
| SetTopK (v : jsnum)
| SetEmpathicMode (b : bool)
| SetQuickReplies (b : bool)
| SavePresets (l : list Preset)
| ClickPreset (p : Preset)
| ClickQuickReply (q : string)
| ClickClear (confirmed : bool)
| VoiceResult (transcript : string).

(** The state update of an event that is a plain [setState]. *)
Definition ui_update (e : UiEvent) (s : State) : State :=
  match e with
  | Core _ => s
  | SetApiKey v => with_apiKey v s
  | SetTemperature v => with_params v (topP s) (topK s) s
  | SetTopP v => with_params (temperature s) v (topK s) s
  | SetTopK v => with_params (temperature s) (topP s) v s
  | SetEmpathicMode b => with_empathicMode b s
  | SetQuickReplies b => with_quickReplies b s
  | SavePresets l => with_presets l s
  | ClickPreset p => click_preset p s
  | ClickQuickReply q => click_quick_reply q s
  | ClickClear confirmed => clearChat confirmed s
  | VoiceResult transcript => with_input transcript s
  end.

Definition ui_step (e : UiEvent) (sys : System) : System * list Effect :=
  match e with
  | Core c => step c sys
  | _ => (mkSystem (setState (ui_update e) (world sys)) (calls sys), [])
  end.

Fixpoint ui_steps (es : list UiEvent) (sys : System) : System * list Effect :=
  match es with
  | [] => (sys, [])
  | e :: es' =>
      let '(sys1, eff1) := ui_step e sys in
      let '(sys2, eff2) := ui_steps es' sys1 in
      (sys2, (eff1 ++ eff2)%list)
  end.

(** The events of the settings panel. *)
Definition is_setting (e : UiEvent) : bool :=
  match e with
  | SetApiKey _ | SetTemperature _ | SetTopP _ | SetTopK _
  | SetEmpathicMode _ | SetQuickReplies _ | SavePresets _ => true
  | _ => false
  end.

(** The answers and timeouts of the calls under way. *)
Definition is_settling (e : UiEvent) : bool :=
  match e with
  | Core (Reply _ _) | Core (TimerFires _) => true
  | _ => false
  end.

(** A chat entry as [send] writes them: it has a text, a user entry has
    no flag, and no entry is flagged both cached and error. *)
Definition message_ok (m : Message) : Prop :=
  text m <> ""
  /\ (role m = user -> cached m = false /\ error m = false)
  /\ (cached m = true -> error m = false).

Definition cache_ok (c : gmap string string) : Prop :=
  forall k v, c !! k = Some v -> k <> "" /\ v <> "".

Definition frame_of (k : option Susp) : option Frame :=
  match k with
  | Some (AwaitPost f) | Some (AwaitSleep f) => Some f
  | None => None
  end.

Definition call_ok (k : option Susp) : Prop :=
  match frame_of k with
  | Some f => question (clo f) <> ""
  | None => True
  end.

Definition page_ok (sys : System) : Prop :=
  Forall message_ok (chat (state (world sys)))
  /\ cache_ok (cacheRef (world sys))
  /\ Forall call_ok (calls sys).

(** Two pages that differ in their settings at most. *)
Definition same_but_settings (a b : System) : Prop :=
  calls a = calls b
  /\ busy (world a) = busy (world b)
  /\ cacheRef (world a) = cacheRef (world b)
  /\ clock (world a) = clock (world b)
  /\ reads (world a) = reads (world b)
  /\ chat (state (world a)) = chat (state (world b))
  /\ input (state (world a)) = input (state (world b)).

(** A byte that is no white space and belongs to no white-space sequence:
    the first byte of none, so it does not start one, and not a
    continuation byte, so it does not end one. *)
Definition visible (c : ascii) : bool :=
  negb (ws1 c) && (code c <? 128)%N.

(** One move of the page, by what it does to the world and to the list
    of calls: every event handled by [ui_step] makes one of these. *)
Inductive moves (sys : System) : System -> list Effect -> Prop :=
| move_none :
    moves sys sys []
| move_update (g : State -> State) :
    (forall s, chat (g s) = chat s \/ chat (g s) = []) ->
    moves sys (mkSystem (setState g (world sys)) (calls sys)) []
| move_refused (eff : list Effect) :
    posts eff = [] ->
    moves sys (mkSystem (world sys) (calls sys ++ [None])%list) eff
| move_hit (hit : string) :
    trim (input (state (world sys))) <> "" ->
    cacheRef (world sys) !! trim (input (state (world sys))) = Some hit ->
    moves sys
          (mkSystem (say assistant hit true false (outgoing_posted (world sys)))
                    (calls sys ++ [None])%list)
          []
| move_miss :
    reaches_network (world sys) = true ->
    moves sys
          (mkSystem (setBusy true (outgoing_posted (world sys)))
                    (calls sys
                     ++ [Some (AwaitPost (mkFrame (closure_of (world sys)) 0 1200))])%list)
          [Post (GEMINI_ENDPOINT (configured_key (world sys)))
                (payload_of (closure_of (world sys)))]
| move_answer (i : nat) (f : Frame) (t : string) :
    calls sys !! i = Some (Some (AwaitPost f)) ->
    t <> "" ->
    moves sys
          (mkSystem
             (setBusy false
                (say assistant (wrap_reply (clo f) t) false false
                     (cache_set (question (clo f)) (wrap_reply (clo f) t)
                                (world sys))))
             (<[i:=None]> (calls sys)))
          []
| move_fail (i : nat) (f : Frame) (r : Response) :
    calls sys !! i = Some (Some (AwaitPost f)) ->
    moves sys
          (mkSystem (setBusy false (say assistant (failure_message r) false true
                                        (world sys)))
                    (<[i:=None]> (calls sys)))
          [ConsoleError]
| move_sleep (i : nat) (f : Frame) :
    calls sys !! i = Some (Some (AwaitPost f)) ->
    moves sys
          (mkSystem (world sys)
                    (<[i:=Some (AwaitSleep (mkFrame (clo f) (attempt f + 1) (delay f)))]>
                       (calls sys)))
          [ConsoleError; Sleep (delay f)]
| move_wake (i : nat) (f : Frame) (k : option Susp) (eff : list Effect) :
    calls sys !! i = Some (Some (AwaitSleep f)) ->
    k = None \/ (exists f', k = Some (AwaitPost f') /\ clo f' = clo f) ->
    moves sys (mkSystem (setBusy false (world sys)) (<[i:=k]> (calls sys))) eff.




(** [s] begins with a white-space character. *)
Definition starts_ws (s : string) : bool :=
  match s with
  | EmptyString => false
  | String c1 r1 =>
      ws1 c1
      || match r1 with
         | EmptyString => false
         | String c2 r2 =>
             ws2 c1 c2
             || match r2 with
                | EmptyString => false
                | String c3 _ => ws3 c1 c2 c3
                end
         end
  end.

(** The mirror image of [s] ends with a white-space character. *)
Definition starts_ws_mirror (s : string) : bool :=
  match s with
  | EmptyString => false
  | String c1 r1 =>
      ws1 c1
      || match r1 with
         | EmptyString => false
         | String c2 r2 =>
             ws2 c2 c1
             || match r2 with
                | EmptyString => false
                | String c3 _ => ws3 c3 c2 c1
                end
         end
  end.

(* ===================================================================== *)
(** ** Properties: the guards of [send] *)
(* ===================================================================== *)

Lemma truthy_empty : truthy "" = false.
Proof. reflexivity. Qed.

Lemma truthy_false_iff (s : string) : truthy s = false <-> s = "".
Proof.
  unfold truthy. rewrite negb_false_iff. apply String.eqb_eq.
Qed.

Lemma truthy_true_iff (s : string) : truthy s = true <-> s <> "".
Proof.
  unfold truthy. rewrite negb_true_iff. apply String.eqb_neq.
Qed.

Lemma send_begin_gate (w : World) :
  trim (input (state w)) = "" \/ busy w = true ->
  send_begin w = (w, [], None).
Proof.
  intros [Hq | Hb]; unfold send_begin.
  - rewrite Hq. reflexivity.
  - rewrite Hb, orb_true_r. reflexivity.
Qed.

Lemma send_gate (rs : list Response) (w : World) :
  trim (input (state w)) = "" \/ busy w = true ->
  send rs w = (w, [], None).
Proof.
  intros H. unfold send. rewrite (send_begin_gate w H). reflexivity.
Qed.

(** C9.  Called with an input that trims to the empty string, or while
    [busy] is set, [send] does nothing at all: the world it leaves (chat,
    input field, cache, busy flag, clock reads) is the one it found, it has
    no effect on the outside (no alert, no request, no timer) and nothing
    of it remains suspended, whatever the endpoint would have answered. *)
Theorem send_blank_or_busy_is_noop (rs : list Response) (w : World) :
  trim (input (state w)) = "" \/ busy w = true ->
  send rs w = (w, [], None).
Proof.
  apply send_gate.
Qed.

Lemma send_blank_or_busy_is_noop_witness :
  send [Resolved (Some "hello")] (typed_world "k" "   ")
  = (typed_world "k" "   ", [], None)
  /\ send [Resolved (Some "hello")] (setBusy true (typed_world "k" "hi"))
     = (setBusy true (typed_world "k" "hi"), [], None).
Proof.
  split.
  - apply (send_blank_or_busy_is_noop _ (typed_world "k" "   ")).
    left. vm_compute. reflexivity.
  - apply (send_blank_or_busy_is_noop _ (setBusy true (typed_world "k" "hi"))).
    right. reflexivity.
Defined.

Lemma configured_key_none (w : World) :
  apiKey (state w) = "" ->
  VITE_API_GENERATIVE_LANGUAGE_CLIENT w = None
  \/ VITE_API_GENERATIVE_LANGUAGE_CLIENT w = Some "" ->
  configured_key w = "".
Proof.
  intros Hk Hv. unfold configured_key. rewrite Hk.
  destruct Hv as [-> | ->]; reflexivity.
Qed.

(** C7.  With no API key configured (none in the settings and none in the
    build environment) a call of [send] that passes the input and busy
    guards stops before any request: its only effect is the alert with
    the missing-key notice, nothing stays suspended, and the world, so
    also the chat, is left as it was.  Whether or not the guards are
    passed, no request is made and the world is unchanged. *)
Theorem send_without_key_alerts_only (rs : list Response) (w : World) :
  apiKey (state w) = "" ->
  VITE_API_GENERATIVE_LANGUAGE_CLIENT w = None
  \/ VITE_API_GENERATIVE_LANGUAGE_CLIENT w = Some "" ->
  (trim (input (state w)) <> "" -> busy w = false ->
   send rs w = (w, [Alert missing_key_notice], None))
  /\ (exists es, send rs w = (w, es, None) /\ posts es = []).
Proof.
  intros Hk Hv.
  pose proof (configured_key_none w Hk Hv) as Hc.
  assert (Hgo : trim (input (state w)) <> "" -> busy w = false ->
                send rs w = (w, [Alert missing_key_notice], None)).
  { intros Hq Hb. unfold send, send_begin.
    apply truthy_true_iff in Hq. rewrite Hq, Hb. cbn [negb orb].
    fold (configured_key w). rewrite Hc. reflexivity. }
  split; [exact Hgo |].
  destruct (String.eqb_spec (trim (input (state w))) "") as [Hq | Hq].
  - exists []. split; [| reflexivity].
    apply send_gate. now left.
  - destruct (busy w) eqn:Hb.
    + exists []. split; [| reflexivity].
      apply send_gate. now right.
    + exists [Alert missing_key_notice]. split; [| reflexivity]. now apply Hgo.
Qed.

Lemma send_without_key_alerts_only_witness :
  send [Resolved (Some "hello")] (typed_world "" "I feel sad")
  = (typed_world "" "I feel sad", [Alert missing_key_notice], None).
Proof.
  refine (proj1 (send_without_key_alerts_only _ (typed_world "" "I feel sad") _ _) _ _).
  - reflexivity.
  - left. reflexivity.
  - vm_compute. discriminate.
  - reflexivity.
Defined.

(* ===================================================================== *)
(** ** Properties: import *)
(* ===================================================================== *)

Lemma accepted_iff (data : json) :
  negb (json_truthy data) || negb (typeof_object data) = false
  <-> non_null_object data.
Proof.
  unfold non_null_object.
  destruct data; cbn [json_truthy typeof_object negb orb];
    rewrite ?orb_true_r, ?orb_false_r; split;
    try discriminate; try (intros [? ?]; congruence);
    try (intros _; split; [reflexivity | discriminate]);
    reflexivity.
Qed.

(** C8.  [importChat] replaces the state cell by the parsed value, with no
    notice, when the file contents parse to a non-null object (an array
    counts as one); for all other contents, those that do not parse and
    those that parse to anything else, it raises one alert starting with
    [Import failed: ] and leaves the cell as it was. *)
Theorem importChat_accepts_only_objects
    (JSON_parse : string -> string + json) (contents : string) (cell : json) :
  (forall data, JSON_parse contents = inr data -> non_null_object data ->
     importChat JSON_parse contents cell = (data, []))
  /\ ((forall data, JSON_parse contents = inr data -> ~ non_null_object data) ->
      exists reason,
        importChat JSON_parse contents cell
        = (cell, [Alert ("Import failed: " ++ reason)])).
Proof.
  unfold importChat. split.
  - intros data Hp Hobj. rewrite Hp.
    apply accepted_iff in Hobj. rewrite Hobj. reflexivity.
  - intros Hno. destruct (JSON_parse contents) as [message | data] eqn:Hp.
    + exists message. reflexivity.
    + specialize (Hno data eq_refl).
      destruct (negb (json_truthy data) || negb (typeof_object data)) eqn:Hacc.
      * exists "Invalid file". reflexivity.
      * apply accepted_iff in Hacc. contradiction.
Qed.

Lemma importChat_accepts_only_objects_witness :
  importChat toy_parse "{}" (JObject [("input", JString "draft")])
  = (JObject [], [])
  /\ exists reason,
       importChat toy_parse "null" (JObject [("input", JString "draft")])
       = (JObject [("input", JString "draft")],
          [Alert ("Import failed: " ++ reason)]).
Proof.
  split.
  - apply (proj1 (importChat_accepts_only_objects toy_parse "{}" _)).
    + reflexivity.
    + split; [reflexivity | discriminate].
  - apply (proj2 (importChat_accepts_only_objects toy_parse "null" _)).
    intros data Hp. vm_compute in Hp. injection Hp as <-.
    intros [_ Hnn]. now apply Hnn.
Defined.

(* ===================================================================== *)
(** ** Properties: slash commands *)
(* ===================================================================== *)

Lemma split_space_nonempty (s : string) : split_space s <> [].
Proof.
  destruct s as [| c r]; cbn; [discriminate |].
  destruct (Ascii.eqb c space); [discriminate |].
  destruct (split_space r); discriminate.
Qed.

Lemma join_split_space (s : string) : join_space (split_space s) = s.
Proof.
  induction s as [| c r IH]; [reflexivity |].
  cbn [split_space].
  destruct (Ascii.eqb_spec c space) as [-> | Hc].
  - pose proof (split_space_nonempty r) as Hne.
    destruct (split_space r) as [| h t] eqn:E; [contradiction |].
    cbn [join_space]. rewrite <- IH. reflexivity.
  - destruct (split_space r) as [| h t] eqn:E.
    + now destruct (split_space_nonempty r).
    + rewrite <- IH. destruct t; reflexivity.
Qed.

(** [const [cmd, ...rest] = s.split(' ')] and [rest.join(' ')] cut [s] at
    its first space. *)
Lemma split_space_token_body (s : string) :
  exists rest,
    split_space s = command_token s :: rest
    /\ join_space rest = remainder_body s.
Proof.
  induction s as [| c r IH]; [exists []; split; reflexivity |].
  cbn [split_space command_token remainder_body].
  destruct (Ascii.eqb c space).
  - exists (split_space r). split; [reflexivity | apply join_split_space].
  - destruct IH as (rest & -> & Hj). exists rest. split; [reflexivity | exact Hj].
Qed.

Lemma routeSlashCommand_cases (text : string) :
  routeSlashCommand text
  = if startsWith (trim text) "/"
    then match template_of (toLowerCase (command_token (slice1 (trim text)))) with
         | Some template => template ++ remainder_body (slice1 (trim text))
         | None => text
         end
    else text.
Proof.
  unfold routeSlashCommand, template_of.
  destruct (startsWith (trim text) "/"); [| reflexivity].
  destruct (split_space_token_body (slice1 (trim text))) as (rest & -> & ->).
  repeat match goal with
         | |- context [String.eqb ?a ?b] => destruct (String.eqb a b)
         end; reflexivity.
Qed.

(** C5.  [routeSlashCommand] turns a recognised command ([summarize],
    [reframe], [coach], [journal], in any letter case) into its fixed
    template followed by the body, the text after the first space of the
    trimmed input; every other text, among them the ones with an unknown
    command, comes back as it was given.  On [/summarize I am stressed] the
    result starts with the summarize instruction and contains
    [I am stressed]; on [/foo bar] it is [/foo bar]. *)
Theorem routeSlashCommand_expands_known_only :
  (forall text template,
     startsWith (trim text) "/" = true ->
     template_of (toLowerCase (command_token (slice1 (trim text)))) = Some template ->
     routeSlashCommand text = template ++ remainder_body (slice1 (trim text)))
  /\ (forall text,
        startsWith (trim text) "/" = false
        \/ template_of (toLowerCase (command_token (slice1 (trim text)))) = None ->
        routeSlashCommand text = text)
  /\ (startsWith (routeSlashCommand "/summarize I am stressed")
                 "Summarize this in 3 bullets and 1 next step." = true
      /\ includes (routeSlashCommand "/summarize I am stressed")
                  "I am stressed" = true)
  /\ routeSlashCommand "/foo bar" = "/foo bar".
Proof.
  split; [| split; [| split]].
  - intros text template Hs Ht. rewrite routeSlashCommand_cases, Hs, Ht. reflexivity.
  - intros text [Hs | Ht]; rewrite routeSlashCommand_cases.
    + rewrite Hs. reflexivity.
    + rewrite Ht. now destruct (startsWith (trim text) "/").
  - split; vm_compute; reflexivity.
  - vm_compute. reflexivity.
Qed.

Lemma routeSlashCommand_expands_known_only_witness :
  routeSlashCommand "  /Coach I keep procrastinating. "
  = coach_template ++ "I keep procrastinating."
  /\ routeSlashCommand " /foo bar " = " /foo bar ".
Proof.
  destruct routeSlashCommand_expands_known_only as (Hknown & Hother & _).
  split.
  - apply (Hknown "  /Coach I keep procrastinating. " coach_template);
      vm_compute; reflexivity.
  - apply (Hother " /foo bar "). right. vm_compute. reflexivity.
Defined.

(* ===================================================================== *)
(** ** Properties: generation parameters *)
(* ===================================================================== *)

Lemma num_leb_refl (a : jsnum) : a <> NaN -> num_leb a a = true.
Proof.
  destruct a; cbn; try congruence. intros _. apply Qle_bool_iff, Qle_refl.
Qed.

Lemma num_leb_total (a b : jsnum) :
  a <> NaN -> b <> NaN -> num_leb a b = false -> num_leb b a = true.
Proof.
  destruct a, b; cbn; try congruence. intros _ _ H.
  apply Qle_bool_iff. apply Qlt_le_weak, Qnot_le_lt.
  intros Hle. apply Qle_bool_iff in Hle. congruence.
Qed.

Lemma Math_min_cases (a b : jsnum) :
  a <> NaN -> b <> NaN ->
  Math_min a b = if num_leb a b then a else b.
Proof. destruct a, b; cbn; congruence. Qed.

Lemma Math_max_cases (a b : jsnum) :
  a <> NaN -> b <> NaN ->
  Math_max a b = if num_leb a b then b else a.
Proof. destruct a, b; cbn; congruence. Qed.

Lemma clamp_in_range (v lo hi : jsnum) :
  v <> NaN -> lo <> NaN -> hi <> NaN -> num_leb lo hi = true ->
  in_range lo hi (clamp v lo hi) = true.
Proof.
  intros Hv Hlo Hhi Hle. unfold clamp, in_range.
  rewrite (Math_min_cases v hi Hv Hhi).
  destruct (num_leb v hi) eqn:Hvh.
  - rewrite (Math_max_cases lo v Hlo Hv).
    destruct (num_leb lo v) eqn:Hlv.
    + now rewrite Hlv, Hvh.
    + now rewrite (num_leb_refl lo Hlo), Hle.
  - rewrite (Math_max_cases lo hi Hlo Hhi), Hle.
    now rewrite Hle, (num_leb_refl hi Hhi).
Qed.

Lemma num_or_not_NaN (v d : jsnum) : d <> NaN -> num_or v d <> NaN.
Proof.
  intros Hd. unfold num_or. destruct v; cbn; try congruence.
  destruct (Qeq_bool q 0); cbn; congruence.
Qed.

Lemma num_or_truthy (v d : jsnum) : num_truthy v = true -> num_or v d = v.
Proof. intros H. unfold num_or. now rewrite H. Qed.

Lemma posts_app (a b : list Effect) : posts (a ++ b) = (posts a ++ posts b)%list.
Proof. apply flat_map_app. Qed.

Lemma effects_then_step (e : list Effect) (s : Step) :
  effects_of (then_step e s) = (e ++ effects_of s)%list.
Proof. destruct s as [[w e'] k]. reflexivity. Qed.

(** Every request of a suspended call carries the payload of its closure. *)
Lemma posts_of_drive (rs : list Response) :
  forall (f : Frame) (w : World) (p : Payload),
    In p (posts (effects_of (drive rs f w))) -> p = payload_of (clo f).
Proof.
  induction rs as [| r rs IH]; intros f w p; cbn [drive].
  - cbn. tauto.
  - unfold on_reply.
    destruct (reply_text r); [cbn; tauto |].
    destruct (is_429 r && (attempt f + 1 <? MAX_ATTEMPTS)%Z); [| cbn; tauto].
    unfold on_timer, loop_head. cbn [clo attempt delay].
    destruct (attempt f + 1 <? MAX_ATTEMPTS)%Z; [| cbn; tauto].
    rewrite effects_then_step, posts_app. cbn [app posts flat_map In].
    intros [<- | Hin]; [reflexivity |].
    apply (IH _ _ _ Hin).
Qed.

(** [send_begin] by cases, in the vocabulary of the statements. *)
Lemma send_begin_cases (w : World) :
  send_begin w
  = if negb (truthy (trim (input (state w)))) || busy w then (w, [], None)
    else if negb (truthy (configured_key w))
         then (w, [Alert missing_key_notice], None)
         else match cacheRef w !! trim (input (state w)) with
              | Some hit => (say assistant hit true false (outgoing_posted w), [], None)
              | None =>
                  (setBusy true (outgoing_posted w),
                   [Post (GEMINI_ENDPOINT (configured_key w)) (payload_of (closure_of w))],
                   Some (AwaitPost (mkFrame (closure_of w) 0 1200)))
              end.
Proof.
  unfold send_begin. fold (configured_key w).
  destruct (negb (truthy (trim (input (state w)))) || busy w); [reflexivity |].
  destruct (negb (truthy (configured_key w))); [reflexivity |].
  cbn [nowISO setState cacheRef].
  destruct (cacheRef w !! trim (input (state w))); reflexivity.
Qed.

(** Every request of a call carries a payload built from the state the
    call started in. *)
Lemma posts_of_send (rs : list Response) (w : World) (p : Payload) :
  In p (posts (effects_of (send rs w))) ->
  exists c, rendered c = state w /\ p = payload_of c.
Proof.
  unfold send. rewrite send_begin_cases.
  destruct (negb (truthy (trim (input (state w)))) || busy w); [cbn; tauto |].
  destruct (negb (truthy (configured_key w))); [cbn; tauto |].
  destruct (cacheRef w !! trim (input (state w))); [cbn; tauto |].
  rewrite effects_then_step, posts_app. cbn [app posts flat_map In].
  intros [<- | Hin].
  - exists (closure_of w). split; reflexivity.
  - apply posts_of_drive in Hin. cbn [clo] in Hin.
    exists (closure_of w). split; [reflexivity | exact Hin].
Qed.

(** C2, as the code has it.  In every request of every call of [send] the
    three generation parameters lie in their ranges ([0,2], [0,1],
    [1,200]) whatever the stored values are, and [candidateCount] is 1.  A
    stored value that is a number other than zero is sent clamped, so a
    stored temperature of 5 is sent as 2.  A stored topK of 0 is sent as
    the default 40. *)
Theorem sent_parameters_in_range (rs : list Response) (w : World) (p : Payload) :
  In p (posts (effects_of (send rs w))) ->
  let g := generationConfig p in
  (in_range (Fin 0) (Fin 2) (gc_temperature g) = true
   /\ in_range (Fin 0) (Fin 1) (gc_topP g) = true
   /\ in_range (Fin 1) (Fin 200) (gc_topK g) = true
   /\ candidateCount g = 1%Z)
  /\ (num_truthy (temperature (state w)) = true ->
      gc_temperature g = clamp (temperature (state w)) (Fin 0) (Fin 2))
  /\ (num_truthy (topP (state w)) = true ->
      gc_topP g = clamp (topP (state w)) (Fin 0) (Fin 1))
  /\ (num_truthy (topK (state w)) = true ->
      gc_topK g = clamp (topK (state w)) (Fin 1) (Fin 200))
  /\ (temperature (state w) = Fin 5 -> gc_temperature g = Fin 2)
  /\ (topK (state w) = Fin 0 -> gc_topK g = Fin 40).
Proof.
  intros Hin. destruct (posts_of_send rs w p Hin) as (c & Hc & ->).
  cbn [payload_of generationConfig gc_temperature gc_topP gc_topK candidateCount].
  rewrite Hc.
  repeat split.
  - apply clamp_in_range; try discriminate; [| reflexivity].
    apply num_or_not_NaN. discriminate.
  - apply clamp_in_range; try discriminate; [| reflexivity].
    apply num_or_not_NaN. discriminate.
  - apply clamp_in_range; try discriminate; [| reflexivity].
    apply num_or_not_NaN. discriminate.
  - intros H. now rewrite (num_or_truthy _ _ H).
  - intros H. now rewrite (num_or_truthy _ _ H).
  - intros H. now rewrite (num_or_truthy _ _ H).
  - intros ->. reflexivity.
  - intros ->. reflexivity.
Qed.

Lemma sent_parameters_in_range_witness :
  exists p,
    posts (effects_of (send [] out_of_range_world)) = [p]
    /\ gc_temperature (generationConfig p) = Fin 2
    /\ gc_topK (generationConfig p) = Fin 40
    /\ in_range (Fin 0) (Fin 1) (gc_topP (generationConfig p)) = true.
Proof.
  eexists. split; [vm_compute; reflexivity |].
  match goal with |- context [generationConfig ?p] =>
    pose proof (sent_parameters_in_range [] out_of_range_world p) as H
  end.
  destruct H as ((_ & HP & _) & _ & _ & _ & HT & HK).
  - vm_compute. left. reflexivity.
  - split; [apply HT; reflexivity |].
    split; [apply HK; reflexivity | exact HP].
Defined.

(** C2, counterexample.  With a stored topK of 0 the one request of the
    call carries topK 40, not 1. *)
Lemma stored_topK_zero_sent_as_default :
  topK (state out_of_range_world) = Fin 0
  /\ exists p,
       posts (effects_of (send [] out_of_range_world)) = [p]
       /\ gc_topK (generationConfig p) = Fin 40
       /\ gc_topK (generationConfig p) <> Fin 1.
Proof.
  split; [reflexivity |].
  eexists. split; [vm_compute; reflexivity |].
  split; [reflexivity | discriminate].
Qed.

(* ===================================================================== *)
(** ** Properties: the retry loop *)
(* ===================================================================== *)

Lemma reaches_network_inv (w : World) :
  reaches_network w = true ->
  truthy (trim (input (state w))) = true
  /\ busy w = false
  /\ truthy (configured_key w) = true
  /\ cacheRef w !! trim (input (state w)) = None.
Proof.
  unfold reaches_network. rewrite !andb_true_iff, negb_true_iff, bool_decide_eq_true.
  tauto.
Qed.

Lemma send_begin_miss (w : World) :
  reaches_network w = true ->
  send_begin w
  = (setBusy true (outgoing_posted w),
     [Post (GEMINI_ENDPOINT (configured_key w)) (payload_of (closure_of w))],
     Some (AwaitPost (mkFrame (closure_of w) 0 1200))).
Proof.
  intros H. apply reaches_network_inv in H as (Hq & Hb & Hk & Hc).
  rewrite send_begin_cases, Hq, Hb, Hk, Hc. reflexivity.
Qed.

Lemma send_miss (rs : list Response) (w : World) :
  reaches_network w = true ->
  send rs w
  = then_step
      [Post (GEMINI_ENDPOINT (configured_key w)) (payload_of (closure_of w))]
      (drive rs (mkFrame (closure_of w) 0 1200) (setBusy true (outgoing_posted w))).
Proof.
  intros H. unfold send. now rewrite (send_begin_miss w H).
Qed.

Lemma is_429_throws (r : Response) : is_429 r = true -> reply_text r = None.
Proof. destruct r; cbn; congruence. Qed.

Lemma on_reply_ok (r : Response) (t : string) (f : Frame) (w : World) :
  reply_text r = Some t ->
  on_reply r f w
  = (setBusy false
       (say assistant (wrap_reply (clo f) t) false false
            (cache_set (question (clo f)) (wrap_reply (clo f) t) w)),
     [], None).
Proof. intros H. unfold on_reply. now rewrite H. Qed.

Lemma on_reply_retry (r : Response) (f : Frame) (w : World) :
  is_429 r = true -> (attempt f + 1 < MAX_ATTEMPTS)%Z ->
  on_reply r f w
  = (w, [ConsoleError; Sleep (delay f)],
     Some (AwaitSleep (mkFrame (clo f) (attempt f + 1) (delay f)))).
Proof.
  intros H Hlt. unfold on_reply. rewrite (is_429_throws r H), H.
  apply Z.ltb_lt in Hlt. now rewrite Hlt.
Qed.

Lemma on_reply_give_up (r : Response) (f : Frame) (w : World) :
  reply_text r = None ->
  is_429 r = false \/ (MAX_ATTEMPTS <= attempt f + 1)%Z ->
  on_reply r f w
  = (setBusy false (say assistant (failure_message r) false true w),
     [ConsoleError], None).
Proof.
  intros Hr Hc. unfold on_reply. rewrite Hr.
  destruct Hc as [-> | Hge]; [reflexivity |].
  apply Z.ltb_ge in Hge. now rewrite Hge, andb_false_r.
Qed.

(** One rate-limited attempt with attempts left: the error is logged, the
    call sleeps [delay], clears [busy], doubles [delay] and posts again. *)
Lemma drive_retry (r : Response) (rs : list Response) (f : Frame) (w : World) :
  is_429 r = true -> (attempt f + 1 < MAX_ATTEMPTS)%Z ->
  drive (r :: rs) f w
  = then_step
      [ConsoleError; Sleep (delay f);
       Post (GEMINI_ENDPOINT (key (clo f))) (payload_of (clo f))]
      (drive rs (mkFrame (clo f) (attempt f + 1) (delay f * 2)) (setBusy false w)).
Proof.
  intros H Hlt. cbn [drive]. rewrite (on_reply_retry r f w H Hlt).
  unfold on_timer, loop_head. cbn [clo attempt delay].
  apply Z.ltb_lt in Hlt. rewrite Hlt. reflexivity.
Qed.

Lemma drive_ok (r : Response) (t : string) (rs : list Response) (f : Frame) (w : World) :
  reply_text r = Some t ->
  drive (r :: rs) f w
  = (setBusy false
       (say assistant (wrap_reply (clo f) t) false false
            (cache_set (question (clo f)) (wrap_reply (clo f) t) w)),
     [], None).
Proof. intros H. cbn [drive]. now rewrite (on_reply_ok r t f w H). Qed.

Lemma drive_give_up (r : Response) (rs : list Response) (f : Frame) (w : World) :
  reply_text r = None ->
  is_429 r = false \/ (MAX_ATTEMPTS <= attempt f + 1)%Z ->
  drive (r :: rs) f w
  = (setBusy false (say assistant (failure_message r) false true w),
     [ConsoleError], None).
Proof. intros Hr Hc. cbn [drive]. now rewrite (on_reply_give_up r f w Hr Hc). Qed.

(** C1.  A call of [send] that reaches the network and gets HTTP 429 on
    every attempt makes exactly three requests, sleeps exactly twice, 1200
    ms and then 2400 ms, raises no alert, and returns after the third
    answer.  The chat has then grown by the user's message and exactly one
    further message: an assistant message flagged as an error, carrying
    the failure text of the third answer.  While fewer than three answers
    are in, the chat holds the user's message and nothing more.  The error
    is logged to the console after each attempt, which the page does not
    show. *)
Theorem send_all_429 (rs : list Response) (w : World) :
  reaches_network w = true ->
  Forall (fun r => is_429 r = true) rs ->
  (3 <= length rs)%nat ->
  let url := GEMINI_ENDPOINT (configured_key w) in
  let body := payload_of (closure_of w) in
  exists r3,
    rs !! 2%nat = Some r3
    /\ effects_of (send rs w)
       = [Post url body; ConsoleError; Sleep 1200;
          Post url body; ConsoleError; Sleep 2400;
          Post url body; ConsoleError]
    /\ length (posts (effects_of (send rs w))) = 3%nat
    /\ sleeps (effects_of (send rs w)) = [1200; 2400]%Z
    /\ alerts (effects_of (send rs w)) = []
    /\ rest_of (send rs w) = None
    /\ chat (state (world_of (send rs w)))
       = (chat (state w)
          ++ [mkMessage user (trim (input (state w))) (clock w (reads w)) false false;
              mkMessage assistant (failure_message r3) (clock w (S (reads w)))
                        false true])%list
    /\ busy (world_of (send rs w)) = false
    /\ (forall n, (n < 3)%nat ->
         chat (state (world_of (send (firstn n rs) w)))
         = (chat (state w)
            ++ [mkMessage user (trim (input (state w))) (clock w (reads w))
                          false false])%list).
Proof.
  intros Hgo Hall Hlen.
  destruct rs as [| r1 [| r2 [| r3 rest]]]; cbn in Hlen; try lia.
  apply Forall_cons in Hall as [H1 Hall].
  apply Forall_cons in Hall as [H2 Hall].
  apply Forall_cons in Hall as [H3 _].
  exists r3. split; [reflexivity |].
  assert (Hmid : forall n, (n < 3)%nat ->
            chat (state (world_of (send (firstn n (r1 :: r2 :: r3 :: rest)) w)))
            = (chat (state w)
               ++ [mkMessage user (trim (input (state w))) (clock w (reads w))
                             false false])%list).
  { intros n Hn. rewrite (send_miss _ w Hgo).
    destruct n as [| [| [| n]]]; try lia; cbn [firstn].
    - reflexivity.
    - rewrite (drive_retry r1 _ _ _ H1) by reflexivity. reflexivity.
    - rewrite (drive_retry r1 _ _ _ H1) by reflexivity. cbn [clo attempt delay].
      rewrite (drive_retry r2 _ _ _ H2) by reflexivity. reflexivity. }
  rewrite (send_miss _ w Hgo).
  rewrite (drive_retry r1 _ _ _ H1) by reflexivity. cbn [clo attempt delay key closure_of].
  rewrite (drive_retry r2 _ _ _ H2) by reflexivity. cbn [clo attempt delay key closure_of].
  rewrite (drive_give_up r3 _ _ _ (is_429_throws r3 H3)) by (right; vm_compute; discriminate).
  cbn. rewrite <- app_assoc. repeat split. exact Hmid.
Qed.

Lemma send_all_429_witness :
  effects_of (send [HttpError 429 None; HttpError 429 (Some "Quota exceeded");
                    HttpError 429 (Some "Resource has been exhausted")]
                   (typed_world "k" " I feel sad "))
  = [Post (GEMINI_ENDPOINT "k") (payload_of (closure_of (typed_world "k" " I feel sad ")));
     ConsoleError; Sleep 1200;
     Post (GEMINI_ENDPOINT "k") (payload_of (closure_of (typed_world "k" " I feel sad ")));
     ConsoleError; Sleep 2400;
     Post (GEMINI_ENDPOINT "k") (payload_of (closure_of (typed_world "k" " I feel sad ")));
     ConsoleError]
  /\ map text (chat (state (world_of
       (send [HttpError 429 None; HttpError 429 (Some "Quota exceeded");
              HttpError 429 (Some "Resource has been exhausted")]
             (typed_world "k" " I feel sad ")))))
     = ["I feel sad"; "Resource has been exhausted"].
Proof.
  destruct (send_all_429
              [HttpError 429 None; HttpError 429 (Some "Quota exceeded");
               HttpError 429 (Some "Resource has been exhausted")]
              (typed_world "k" " I feel sad "))
    as (r3 & Hr3 & Heff & _ & _ & _ & _ & Hchat & _ & _).
  - vm_compute. reflexivity.
  - repeat constructor.
  - cbn. lia.
  - split; [exact Heff |].
    rewrite Hchat. cbn in Hr3. injection Hr3 as <-. vm_compute. reflexivity.
Defined.

(* ===================================================================== *)
(** ** Properties: the response cache *)
(* ===================================================================== *)

Lemma chat_outgoing_posted (w : World) :
  chat (state (outgoing_posted w))
  = (chat (state w)
     ++ [mkMessage user (trim (input (state w))) (clock w (reads w)) false false])%list.
Proof. reflexivity. Qed.

(** A call that passes the guards and finds its question in the cache
    returns at once. *)
Lemma send_hit (rs : list Response) (w : World) (hit : string) :
  trim (input (state w)) <> "" ->
  busy w = false ->
  configured_key w <> "" ->
  cacheRef w !! trim (input (state w)) = Some hit ->
  send rs w = (say assistant hit true false (outgoing_posted w), [], None).
Proof.
  intros Hq Hb Hk Hc. apply truthy_true_iff in Hq, Hk.
  unfold send. rewrite send_begin_cases, Hq, Hb, Hk, Hc. reflexivity.
Qed.

Lemma chat_after_hit (w : World) (hit : string) :
  chat (state (say assistant hit true false (outgoing_posted w)))
  = (chat (state w)
     ++ [mkMessage user (trim (input (state w))) (clock w (reads w)) false false;
         mkMessage assistant hit (clock w (S (reads w))) true false])%list.
Proof. cbn. now rewrite <- app_assoc. Qed.

(** The world a successful answer leaves. *)
Lemma after_success (f : Frame) (t : string) (w : World) :
  let w' := setBusy false
              (say assistant (wrap_reply (clo f) t) false false
                   (cache_set (question (clo f)) (wrap_reply (clo f) t) w)) in
  chat (state w')
  = (chat (state w)
     ++ [mkMessage assistant (wrap_reply (clo f) t) (clock w (reads w)) false false])%list
  /\ cacheRef w' = <[question (clo f) := wrap_reply (clo f) t]> (cacheRef w)
  /\ busy w' = false.
Proof. repeat split. Qed.

(** The first send of a question, answered with a text after fewer than
    three rate-limited attempts. *)
Lemma send_success (pre rest : list Response) (t : string) (w : World) :
  reaches_network w = true ->
  Forall (fun r => is_429 r = true) pre ->
  (length pre < 3)%nat ->
  t <> "" ->
  let q := trim (input (state w)) in
  let shown := wrap_reply (closure_of w) t in
  let w' := world_of (send (pre ++ Resolved (Some t) :: rest) w) in
  rest_of (send (pre ++ Resolved (Some t) :: rest) w) = None
  /\ length (posts (effects_of (send (pre ++ Resolved (Some t) :: rest) w)))
     = S (length pre)
  /\ chat (state w')
     = (chat (state w)
        ++ [mkMessage user q (clock w (reads w)) false false;
            mkMessage assistant shown (clock w (S (reads w))) false false])%list
  /\ cacheRef w' = <[q := shown]> (cacheRef w)
  /\ busy w' = false.
Proof.
  intros Hgo Hall Hlen Ht q shown.
  assert (Hr : reply_text (Resolved (Some t)) = Some t).
  { cbn. apply truthy_true_iff in Ht. now rewrite Ht. }
  rewrite (send_miss _ w Hgo).
  destruct pre as [| r1 [| r2 [| r3 pre]]]; cbn in Hlen; try lia; cbn [app].
  - rewrite (drive_ok _ t _ _ _ Hr).
    cbn. rewrite <- app_assoc. repeat split.
  - apply Forall_cons in Hall as [H1 _].
    rewrite (drive_retry r1 _ _ _ H1) by reflexivity. cbn [clo attempt delay].
    rewrite (drive_ok _ t _ _ _ Hr).
    cbn. rewrite <- app_assoc. repeat split.
  - apply Forall_cons in Hall as [H1 Hall]. apply Forall_cons in Hall as [H2 _].
    rewrite (drive_retry r1 _ _ _ H1) by reflexivity. cbn [clo attempt delay].
    rewrite (drive_retry r2 _ _ _ H2) by reflexivity. cbn [clo attempt delay].
    rewrite (drive_ok _ t _ _ _ Hr).
    cbn. rewrite <- app_assoc. repeat split.
Qed.

(** C10.  When a request of a call of [send] is answered with a non-empty
    text, at whatever attempt, the call ends, the chat grows by one
    assistant message, and the cache holds under the call's question
    exactly the text of that message: the answer itself, or the answer
    behind the empathic header when the question scores negative and
    empathic mode was on.  A later call with the same trimmed input that
    passes the guards and finds that entry makes no request and appends a
    message with that very text.  For a whole call of [send] answered
    after fewer than three rate-limited attempts, the question is the
    trimmed input, and the last message of the chat and the cache entry
    under the trimmed input are the same string. *)
Theorem cache_holds_displayed_text :
  (forall (r : Response) (t : string) (f : Frame) (w : World),
     r = Resolved (Some t) -> t <> "" ->
     let w' := world_of (on_reply r f w) in
     let q := question (clo f) in
     let shown :=
       if (sentimentScore q <? 0)%Z && empathicMode (rendered (clo f))
       then empathic_header ++ t else t in
     rest_of (on_reply r f w) = None
     /\ chat (state w')
        = (chat (state w)
           ++ [mkMessage assistant shown (clock w (reads w)) false false])%list
     /\ cacheRef w' !! q = Some shown
     /\ forall (rs : list Response) (w2 : World),
          trim (input (state w2)) = q -> q <> "" ->
          busy w2 = false -> configured_key w2 <> "" ->
          cacheRef w2 !! q = cacheRef w' !! q ->
          effects_of (send rs w2) = []
          /\ chat (state (world_of (send rs w2)))
             = (chat (state w2)
                ++ [mkMessage user q (clock w2 (reads w2)) false false;
                    mkMessage assistant shown (clock w2 (S (reads w2))) true false])%list)
  /\ (forall (pre rest : list Response) (t : string) (w : World),
        reaches_network w = true ->
        Forall (fun r => is_429 r = true) pre ->
        (length pre < 3)%nat ->
        t <> "" ->
        let w' := world_of (send (pre ++ Resolved (Some t) :: rest) w) in
        let q := trim (input (state w)) in
        let shown :=
          if (sentimentScore q <? 0)%Z && empathicMode (state w)
          then empathic_header ++ t else t in
        last (chat (state w'))
        = Some (mkMessage assistant shown (clock w (S (reads w))) false false)
        /\ cacheRef w' !! q = Some shown).
Proof.
  split.
  - intros r t f w -> Ht w' q shown.
    assert (Hr : reply_text (Resolved (Some t)) = Some t).
    { cbn. apply truthy_true_iff in Ht. now rewrite Ht. }
    subst w'. rewrite (on_reply_ok _ t f w Hr). cbn [world_of rest_of fst snd].
    destruct (after_success f t w) as (Hchat & Hcache & _).
    assert (Hlook : cacheRef
                      (setBusy false
                         (say assistant (wrap_reply (clo f) t) false false
                            (cache_set (question (clo f)) (wrap_reply (clo f) t) w)))
                    !! q = Some shown).
    { rewrite Hcache. apply lookup_insert_eq. }
    split; [reflexivity |]. split; [exact Hchat |]. split; [exact Hlook |].
    intros rs w2 Hin Hq Hb Hk Hsame.
    rewrite Hlook in Hsame. rewrite <- Hin in Hsame, Hq.
    rewrite (send_hit rs w2 shown Hq Hb Hk Hsame).
    split; [reflexivity |].
    cbn [world_of fst]. rewrite chat_after_hit, Hin. reflexivity.
  - intros pre rest t w Hgo Hall Hlen Ht w' q shown.
    destruct (send_success pre rest t w Hgo Hall Hlen Ht)
      as (_ & _ & Hchat & Hcache & _).
    fold w' in Hchat, Hcache. fold q in Hchat, Hcache.
    split.
    + rewrite Hchat. now rewrite last_app_cons.
    + rewrite Hcache. apply lookup_insert_eq.
Qed.

Lemma cache_holds_displayed_text_witness :
  cacheRef (world_of (on_reply (Resolved (Some "I hear you."))
                               (mkFrame (closure_of (typed_world "k" "I feel sad")) 0 1200)
                               (setBusy true (outgoing_posted (typed_world "k" "I feel sad")))))
    !! "I feel sad"
  = Some (empathic_header ++ "I hear you.")
  /\ cacheRef (world_of (send ([HttpError 429 None] ++ [Resolved (Some "I hear you.")])
                              (typed_world "k" "I feel sad")))
       !! "I feel sad"
     = Some (empathic_header ++ "I hear you.").
Proof.
  destruct cache_holds_displayed_text as (Hreply & Hsend).
  split.
  - refine (proj1 (proj2 (proj2
      (Hreply (Resolved (Some "I hear you.")) "I hear you."
         (mkFrame (closure_of (typed_world "k" "I feel sad")) 0 1200)
         (setBusy true (outgoing_posted (typed_world "k" "I feel sad")))
         eq_refl _)))).
    discriminate.
  - refine (proj2 (Hsend [HttpError 429 None] [] "I hear you."
                         (typed_world "k" "I feel sad") _ _ _ _)).
    + vm_compute. reflexivity.
    + repeat constructor.
    + cbn. lia.
    + discriminate.
Defined.

(** C4.  After a first send of a question has succeeded, a second send
    whose input trims to the same string, made later in the same session
    (the cache still holds under that string what the first send put
    there, whatever else has been asked and cached in between) and passing
    the guards (no send under way, a key configured), makes no request and
    starts no timer: it appends the user's message and an assistant
    message flagged as cached whose text is the value the first send
    cached and displayed.  The first send writes the cache under the
    trimmed input and nowhere else; the second send is served from it
    whatever the rest of its state is, so also when its composed prompt
    would differ. *)
Theorem repeated_input_hits_cache
    (pre rest rs2 : list Response) (t : string) (w1 w2 : World) :
  reaches_network w1 = true ->
  Forall (fun r => is_429 r = true) pre ->
  (length pre < 3)%nat ->
  t <> "" ->
  let q := trim (input (state w1)) in
  let first := send (pre ++ Resolved (Some t) :: rest) w1 in
  cacheRef w2 !! q = cacheRef (world_of first) !! q ->
  trim (input (state w2)) = q ->
  busy w2 = false ->
  configured_key w2 <> "" ->
  exists shown,
    last (map text (chat (state (world_of first)))) = Some shown
    /\ cacheRef (world_of first) = <[q := shown]> (cacheRef w1)
    /\ send rs2 w2
       = (say assistant shown true false (outgoing_posted w2), [], None)
    /\ chat (state (world_of (send rs2 w2)))
       = (chat (state w2)
          ++ [mkMessage user q (clock w2 (reads w2)) false false;
              mkMessage assistant shown (clock w2 (S (reads w2))) true false])%list.
Proof.
  intros Hgo Hall Hlen Ht q first Hcache Hin Hb Hk.
  destruct (send_success pre rest t w1 Hgo Hall Hlen Ht)
    as (_ & _ & Hchat & Hc1 & _).
  fold first in Hchat, Hc1. fold q in Hchat, Hc1.
  exists (wrap_reply (closure_of w1) t).
  split.
  { rewrite Hchat, map_app. cbn [map text]. now rewrite last_app_cons. }
  split; [exact Hc1 |].
  assert (Hq : trim (input (state w2)) <> "").
  { rewrite Hin. apply reaches_network_inv in Hgo as (Hq & _).
    now apply truthy_true_iff. }
  assert (Hlook : cacheRef w2 !! trim (input (state w2))
                  = Some (wrap_reply (closure_of w1) t)).
  { rewrite Hin, Hcache, Hc1. apply lookup_insert_eq. }
  rewrite (send_hit rs2 w2 _ Hq Hb Hk Hlook).
  split; [reflexivity |].
  cbn [world_of fst]. rewrite chat_after_hit, Hin. reflexivity.
Qed.

Lemma repeated_input_hits_cache_witness :
  send [] second_visit
  = (say assistant (empathic_header ++ "I hear you.") true false
         (outgoing_posted second_visit),
     [], None)
  /\ send [] third_visit
     = (say assistant (empathic_header ++ "I hear you.") true false
            (outgoing_posted third_visit),
        [], None).
Proof.
  split.
  - destruct (repeated_input_hits_cache
                [HttpError 429 None] [] [] "I hear you."
                (typed_world "k" "I feel sad") second_visit)
      as (shown & Hlast & _ & Hsend & _).
    + vm_compute. reflexivity.
    + repeat constructor.
    + cbn. lia.
    + discriminate.
    + reflexivity.
    + vm_compute. reflexivity.
    + reflexivity.
    + vm_compute. discriminate.
    + vm_compute in Hlast. injection Hlast as <-. exact Hsend.
  - destruct (repeated_input_hits_cache
                [HttpError 429 None] [] [] "I hear you."
                (typed_world "k" "I feel sad") third_visit)
      as (shown & Hlast & _ & Hsend & _).
    + vm_compute. reflexivity.
    + repeat constructor.
    + cbn. lia.
    + discriminate.
    + vm_compute. reflexivity.
    + vm_compute. reflexivity.
    + reflexivity.
    + vm_compute. discriminate.
    + vm_compute in Hlast. injection Hlast as <-. exact Hsend.
Defined.

(* ===================================================================== *)
(** ** Properties: the busy flag across a retry *)
(* ===================================================================== *)

(** Until the first backoff is over the flag holds: a call that reaches
    the network sets [busy], a rate-limited answer leaves it set while the
    call sleeps, and a second call made meanwhile does nothing. *)
Lemma busy_held_until_first_backoff_ends (r : Response) (w : World) :
  reaches_network w = true -> is_429 r = true ->
  let sys1 := fst (steps [UserSends] (boot w)) in
  let sys2 := fst (steps [UserSends; Reply 0 r] (boot w)) in
  busy (world sys1) = true
  /\ busy (world sys2) = true
  /\ (forall v, fst (steps [UserEdits v; UserSends] sys2)
                = mkSystem (setState (with_input v) (world sys2))
                           (calls sys2 ++ [None])%list).
Proof.
  intros Hgo H429. cbn [steps step boot world calls].
  rewrite (send_begin_miss w Hgo). cbn [fst snd world calls app lookup].
  cbn [list_lookup].
  rewrite (on_reply_retry r _ _ H429) by reflexivity.
  cbn [fst world calls busy setBusy].
  split; [reflexivity |]. split; [reflexivity |].
  intros v. rewrite send_begin_gate; [reflexivity |]. right. reflexivity.
Qed.

(** When the first backoff is over the call clears [busy] and posts
    again: the flag is down while the call is suspended at its request. *)
Lemma busy_cleared_after_first_backoff (r : Response) (w : World) :
  reaches_network w = true -> is_429 r = true ->
  let sys := fst (steps [UserSends; Reply 0 r; TimerFires 0] (boot w)) in
  busy (world sys) = false
  /\ calls sys = [Some (AwaitPost (mkFrame (closure_of w) 1 2400))].
Proof.
  intros Hgo H429. cbn [steps step boot world calls].
  rewrite (send_begin_miss w Hgo). cbn [fst snd world calls app lookup].
  cbn [list_lookup].
  rewrite (on_reply_retry r _ _ H429) by reflexivity.
  cbn [fst snd world calls lookup list_insert insert list_lookup].
  split; reflexivity.
Qed.

(** C3, evaluated.  Input [hi], a key, an empty cache; the first request
    is answered with HTTP 429.  When the 1200 ms backoff is over the call
    posts its second request, and [busy] is already cleared while that
    request is pending.  The user then types [yo] and sends: the second
    call is not blocked, it posts a request of its own, and two calls are
    in flight.  A further 429 on the first call puts it to sleep with
    [busy] still cleared. *)
Theorem busy_cleared_while_retrying :
  let sys := fst (steps [UserSends; Reply 0 (HttpError 429 None); TimerFires 0]
                        (boot (typed_world "k" "hi"))) in
  let sys' := fst (steps [UserEdits "yo"; UserSends] sys) in
  let sys'' := fst (steps [Reply 0 (HttpError 429 None)] sys) in
  (exists f, calls sys = [Some (AwaitPost f)] /\ attempt f = 1%Z /\ delay f = 2400%Z)
  /\ busy (world sys) = false
  /\ in_flight sys' = 2%nat
  /\ length (posts (snd (steps [UserEdits "yo"; UserSends] sys))) = 1%nat
  /\ map text (chat (state (world sys'))) = ["hi"; "yo"]
  /\ (exists f, calls sys'' = [Some (AwaitSleep f)])
  /\ busy (world sys'') = false.
Proof.
  vm_compute. repeat split; eexists; repeat split.
Qed.

(* ===================================================================== *)
(** ** Properties: the sentiment score *)
(* ===================================================================== *)

Section Counting.

Variable present : string -> bool.

Lemma fold_minus (ws : list string) (s0 : Z) :
  fold_left (fun s w => if present w then (s - 1)%Z else s) ws s0
  = (s0 - Z.of_nat (length (List.filter present ws)))%Z.
Proof.
  revert s0. induction ws as [| w ws IH]; intros s0; cbn [fold_left List.filter].
  - cbn. lia.
  - rewrite IH. destruct (present w); cbn [length]; lia.
Qed.

Lemma fold_plus (ws : list string) (s0 : Z) :
  fold_left (fun s w => if present w then (s + 1)%Z else s) ws s0
  = (s0 + Z.of_nat (length (List.filter present ws)))%Z.
Proof.
  revert s0. induction ws as [| w ws IH]; intros s0; cbn [fold_left List.filter].
  - cbn. lia.
  - rewrite IH. destruct (present w); cbn [length]; lia.
Qed.

(** Making one more word present adds its number of occurrences in the
    list, unless it was present already. *)
Lemma filter_one_more (kw : string) (ws : list string) :
  length (List.filter (fun w => present w || String.eqb w kw) ws)
  = (length (List.filter present ws)
     + (if present kw then 0 else count_occ string_dec ws kw))%nat.
Proof.
  induction ws as [| w ws IH]; cbn [List.filter count_occ length].
  - now destruct (present kw).
  - destruct (String.eqb_spec w kw) as [-> | Hne].
    + rewrite orb_true_r. destruct (string_dec kw kw) as [_ | Hn]; [| congruence].
      destruct (present kw); cbn [length]; lia.
    + rewrite orb_false_r. destruct (string_dec w kw) as [He | _]; [congruence |].
      destruct (present w); cbn [length]; lia.
Qed.

End Counting.

Lemma toLowerCase_app (a b : string) :
  toLowerCase (a ++ b) = toLowerCase a ++ toLowerCase b.
Proof.
  induction a as [| c a IH]; [reflexivity |].
  change (toLowerCase (String c (a ++ b))
          = String (lower_ascii c) (toLowerCase a ++ toLowerCase b)).
  cbn [toLowerCase]. now rewrite IH.
Qed.

Lemma append_empty (s : string) : "" ++ s = s.
Proof. reflexivity. Qed.

Lemma append_String (c : ascii) (a b : string) :
  String c a ++ b = String c (a ++ b).
Proof. reflexivity. Qed.

Lemma startsWith_empty (s : string) : startsWith s "" = true.
Proof. now destruct s. Qed.

Lemma startsWith_before_blank (w a b : string) :
  w <> "" -> mentions space w = false ->
  startsWith (a ++ String space b) w = startsWith a w.
Proof.
  revert w. induction a as [| y a IH]; intros w Hne Hsp.
  - destruct w as [| x w]; [congruence |].
    cbn [mentions] in Hsp. rewrite append_empty. cbn [startsWith].
    apply orb_false_iff in Hsp as [Hx _]. now rewrite Hx.
  - destruct w as [| x w]; [congruence |].
    cbn [mentions] in Hsp. rewrite append_String. cbn [startsWith].
    apply orb_false_iff in Hsp as [_ Hw].
    destruct w as [| x' w]; [now rewrite !startsWith_empty |].
    rewrite (IH (String x' w)); [reflexivity | discriminate | exact Hw].
Qed.

(** A word without a blank occurs in [a b] only inside [a] or inside [b]. *)
Lemma includes_across_blank (w a b : string) :
  w <> "" -> mentions space w = false ->
  includes (a ++ String space b) w = includes a w || includes b w.
Proof.
  intros Hne Hsp. induction a as [| y a IH].
  - rewrite append_empty. cbn [includes].
    rewrite <- (append_empty (String space b)).
    rewrite (startsWith_before_blank w "" b Hne Hsp).
    destruct w; [congruence | reflexivity].
  - rewrite append_String. cbn [includes]. rewrite IH.
    rewrite <- append_String.
    rewrite (startsWith_before_blank w (String y a) b Hne Hsp).
    now rewrite orb_assoc.
Qed.

Lemma keywords_ok : forallb keyword_ok keywords = true.
Proof. vm_compute. reflexivity. Qed.

Lemma keywords_apart_ok : keywords_apart = true.
Proof. vm_compute. reflexivity. Qed.

Lemma keyword_facts (w : string) :
  In w keywords -> w <> "" /\ mentions space w = false /\ toLowerCase w = w.
Proof.
  intros Hin. pose proof keywords_ok as H.
  rewrite forallb_forall in H. specialize (H w Hin).
  unfold keyword_ok in H. rewrite !andb_true_iff, negb_true_iff in H.
  destruct H as ((Ht & Hs) & Hl).
  split; [now apply truthy_true_iff |]. split; [exact Hs |].
  now apply String.eqb_eq.
Qed.

Lemma keyword_in_keyword (kw w : string) :
  In kw keywords -> In w keywords -> includes kw w = String.eqb w kw.
Proof.
  intros Hkw Hw. pose proof keywords_apart_ok as H.
  unfold keywords_apart in H. rewrite forallb_forall in H.
  specialize (H kw Hkw). rewrite forallb_forall in H. specialize (H w Hw).
  now apply Bool.eqb_prop in H.
Qed.

(** Which keywords occur after [kw] was added as a word of its own. *)
Lemma includes_add_word (n : nat) (kw w text : string) :
  In kw keywords -> In w keywords ->
  includes (toLowerCase (add_word (S n) kw text)) w
  = includes (toLowerCase text) w || String.eqb w kw.
Proof.
  intros Hkw Hw.
  destruct (keyword_facts w Hw) as (Hne & Hsp & _).
  destruct (keyword_facts kw Hkw) as (_ & _ & Hlow).
  assert (Hone : forall t, includes (toLowerCase (t ++ String space kw)) w
                           = includes (toLowerCase t) w || String.eqb w kw).
  { intros t. rewrite toLowerCase_app. cbn [toLowerCase]. rewrite Hlow.
    change (String (lower_ascii space) kw) with (String space kw).
    rewrite (includes_across_blank w _ _ Hne Hsp).
    now rewrite (keyword_in_keyword kw w Hkw Hw). }
  revert text. induction n as [| n IH]; intros text; cbn [add_word].
  - apply Hone.
  - change (add_word n kw ((text ++ String space kw) ++ String space kw))
      with (add_word (S n) kw (text ++ String space kw)).
    rewrite IH, Hone. now destruct (includes (toLowerCase text) w), (String.eqb w kw).
Qed.

Lemma sentimentScore_hits (text : string) :
  sentimentScore text = (hits POS text - hits NEG text)%Z.
Proof.
  unfold sentimentScore, hits.
  destruct (truthy text) eqn:Ht; cbn [negb].
  - rewrite fold_plus, fold_minus. lia.
  - apply truthy_false_iff in Ht. subst text. vm_compute. reflexivity.
Qed.

Lemma hits_add_word (ws : list string) (n : nat) (kw text : string) :
  In kw keywords -> incl ws keywords ->
  hits ws (add_word (S n) kw text)
  = (hits ws text
     + (if includes (toLowerCase text) kw then 0
        else Z.of_nat (count_occ string_dec ws kw)))%Z.
Proof.
  intros Hkw Hws. unfold hits.
  rewrite (filter_ext_in
             (includes (toLowerCase (add_word (S n) kw text)))
             (fun w => includes (toLowerCase text) w || String.eqb w kw)).
  - rewrite filter_one_more. destruct (includes (toLowerCase text) kw); lia.
  - intros w Hw. apply includes_add_word; [exact Hkw | now apply Hws].
Qed.

Lemma NEG_once (kw : string) :
  In kw NEG ->
  count_occ string_dec NEG kw = 1%nat /\ count_occ string_dec POS kw = 0%nat.
Proof.
  intros Hin. cbn [In NEG] in Hin.
  repeat (destruct Hin as [<- | Hin]; [split; vm_compute; reflexivity |]).
  contradiction.
Qed.

(** C6, as the code has it.  The score is a function of the text alone:
    the number of positive keywords occurring in it minus the number of
    negative keywords occurring in it, letter case aside, each keyword
    counted once however often it occurs.  Adding a negative keyword as a
    word of its own at the end of a text, once or several times, lowers
    the score by exactly 1 when the text did not contain that keyword, and
    leaves the score as it was when it did. *)
Theorem sentimentScore_counts_keywords_once :
  (forall text, sentimentScore text = (hits POS text - hits NEG text)%Z)
  /\ (forall (n : nat) (kw text : string),
        In kw NEG -> (1 <= n)%nat ->
        sentimentScore (add_word n kw text)
        = if includes (toLowerCase text) kw
          then sentimentScore text
          else (sentimentScore text - 1)%Z).
Proof.
  split; [exact sentimentScore_hits |].
  intros n kw text Hkw Hn.
  destruct n as [| n]; [lia |].
  assert (Hk : In kw keywords) by (apply in_or_app; now left).
  destruct (NEG_once kw Hkw) as (Hneg & Hpos).
  rewrite !sentimentScore_hits.
  rewrite (hits_add_word POS n kw text Hk) by (apply incl_appr, incl_refl).
  rewrite (hits_add_word NEG n kw text Hk) by (apply incl_appl, incl_refl).
  rewrite Hneg, Hpos.
  destruct (includes (toLowerCase text) kw); lia.
Qed.

Lemma sentimentScore_counts_keywords_once_witness :
  sentimentScore (add_word 3 "tired" "I am Hopeful but")
  = (sentimentScore "I am Hopeful but" - 1)%Z
  /\ sentimentScore (add_word 1 "sad" "so SAD") = sentimentScore "so SAD".
Proof.
  destruct sentimentScore_counts_keywords_once as (_ & Hadd).
  split.
  - rewrite (Hadd 3%nat "tired" "I am Hopeful but").
    + vm_compute. reflexivity.
    + vm_compute. tauto.
    + lia.
  - rewrite (Hadd 1%nat "sad" "so SAD").
    + vm_compute. reflexivity.
    + vm_compute. tauto.
    + lia.
Defined.

(** C6, counterexample.  [I am sad] scores -1 and still scores -1 with a
    second [sad] added; [hopeles] scores 0 and [hopelessad], the same text
    with [sad] added, scores -2.  In neither case does adding one
    occurrence of the negative keyword lower the score by exactly 1. *)
Lemma adding_keyword_not_always_minus_one :
  In "sad" NEG
  /\ sentimentScore "I am sad" = (-1)%Z
  /\ sentimentScore ("I am sad" ++ " sad") = (-1)%Z
  /\ sentimentScore ("I am sad" ++ " sad") <> (sentimentScore "I am sad" - 1)%Z
  /\ sentimentScore "hopeles" = 0%Z
  /\ sentimentScore ("hopeles" ++ "sad") = (-2)%Z
  /\ sentimentScore ("hopeles" ++ "sad") <> (sentimentScore "hopeles" - 1)%Z.
Proof.
  split; [vm_compute; tauto |].
  repeat split; vm_compute; congruence.
Qed.

(* ===================================================================== *)
(** ** Further properties of [send] *)
(* ===================================================================== *)

Lemma sleeps_app (a b : list Effect) : sleeps (a ++ b) = (sleeps a ++ sleeps b)%list.
Proof. apply flat_map_app. Qed.

Lemma world_then_step (e : list Effect) (s : Step) :
  world_of (then_step e s) = world_of s.
Proof. destruct s as [[w e'] k]. reflexivity. Qed.

Lemma rest_then_step (e : list Effect) (s : Step) :
  rest_of (then_step e s) = rest_of s.
Proof. destruct s as [[w e'] k]. reflexivity. Qed.

(** The three ways an answer is taken. *)
Lemma drive_cons_cases (r : Response) (rs : list Response) (f : Frame) (w : World) :
  (exists t, reply_text r = Some t
             /\ drive (r :: rs) f w
                = (setBusy false
                     (say assistant (wrap_reply (clo f) t) false false
                          (cache_set (question (clo f)) (wrap_reply (clo f) t) w)),
                   [], None))
  \/ (reply_text r = None
      /\ (is_429 r = false \/ (MAX_ATTEMPTS <= attempt f + 1)%Z)
      /\ drive (r :: rs) f w
         = (setBusy false (say assistant (failure_message r) false true w),
            [ConsoleError], None))
  \/ (is_429 r = true /\ (attempt f + 1 < MAX_ATTEMPTS)%Z
      /\ drive (r :: rs) f w
         = then_step
             [ConsoleError; Sleep (delay f);
              Post (GEMINI_ENDPOINT (key (clo f))) (payload_of (clo f))]
             (drive rs (mkFrame (clo f) (attempt f + 1) (delay f * 2))
                    (setBusy false w))).
Proof.
  destruct (reply_text r) as [t |] eqn:Hr.
  - left. exists t. split; [reflexivity |]. now apply drive_ok.
  - right. destruct (is_429 r) eqn:H4.
    + destruct (Z.lt_ge_cases (attempt f + 1) MAX_ATTEMPTS) as [Hlt | Hge].
      * right. split; [reflexivity |]. split; [exact Hlt |]. now apply drive_retry.
      * left. split; [reflexivity |]. split; [now right |].
        apply drive_give_up; [exact Hr | now right].
    + left. split; [reflexivity |]. split; [now left |].
      apply drive_give_up; [exact Hr | now left].
Qed.

(** X1.  A failure that is not a 429 (a network error, another HTTP
    status, an answer without a text) ends the call at once: one request,
    no sleep, no second attempt.  The chat gets the user's message and one
    error entry, whose text is the message of the endpoint when it sends
    one and the stock apology otherwise; the cache is not written. *)
Theorem send_other_failure_stops_at_once
    (r : Response) (rest : list Response) (w : World) :
  reaches_network w = true ->
  reply_text r = None ->
  is_429 r = false ->
  send (r :: rest) w
  = (setBusy false
       (say assistant (failure_message r) false true (outgoing_posted w)),
     [Post (GEMINI_ENDPOINT (configured_key w)) (payload_of (closure_of w));
      ConsoleError],
     None)
  /\ chat (state (world_of (send (r :: rest) w)))
     = (chat (state w)
        ++ [mkMessage user (trim (input (state w))) (clock w (reads w)) false false;
            mkMessage assistant (failure_message r) (clock w (S (reads w)))
                      false true])%list
  /\ cacheRef (world_of (send (r :: rest) w)) = cacheRef w
  /\ (failure_message r = generic_failure
      \/ exists status, r = HttpError status (Some (failure_message r))
                        /\ failure_message r <> "").
Proof.
  intros Hgo Hr H4.
  rewrite (send_miss _ w Hgo).
  rewrite (drive_give_up r rest _ _ Hr (or_introl H4)).
  split; [reflexivity |].
  split; [cbn; now rewrite <- app_assoc |].
  split; [reflexivity |].
  destruct r as [o | st [m |] |]; cbn; auto.
  destruct (truthy m) eqn:Hm; [right | now left].
  exists st. split; [reflexivity | now apply truthy_true_iff].
Qed.

Lemma send_other_failure_stops_at_once_witness :
  map text (chat (state (world_of
     (send [HttpError 503 (Some "The model is overloaded.")]
           (typed_world "k" "hello")))))
  = ["hello"; "The model is overloaded."]
  /\ map text (chat (state (world_of
       (send [Resolved (Some "")] (typed_world "k" "hello")))))
     = ["hello"; generic_failure].
Proof.
  split.
  - destruct (send_other_failure_stops_at_once
                (HttpError 503 (Some "The model is overloaded.")) []
                (typed_world "k" "hello")) as (_ & Hchat & _);
      [vm_compute; reflexivity | reflexivity | reflexivity |].
    rewrite Hchat. reflexivity.
  - destruct (send_other_failure_stops_at_once
                (Resolved (Some "")) [] (typed_world "k" "hello"))
      as (_ & Hchat & _);
      [vm_compute; reflexivity | reflexivity | reflexivity |].
    rewrite Hchat. reflexivity.
Defined.

(** What a suspended call can still do, by the attempts it has used. *)
Lemma drive_budget (rs : list Response) :
  forall (f : Frame) (w : World),
    (0 <= attempt f)%Z ->
    (Z.of_nat (length (posts (effects_of (drive rs f w))))
     <= Z.max 0 (MAX_ATTEMPTS - 1 - attempt f))%Z
    /\ length (sleeps (effects_of (drive rs f w)))
       = length (posts (effects_of (drive rs f w)))
    /\ alerts (effects_of (drive rs f w)) = [].
Proof.
  induction rs as [| r rs IH]; intros f w Hpos.
  - cbn. repeat split; lia.
  - destruct (drive_cons_cases r rs f w)
      as [(t & _ & ->) | [(_ & _ & ->) | (_ & Hlt & ->)]].
    + cbn. repeat split; lia.
    + cbn. repeat split; lia.
    + rewrite effects_then_step, posts_app, sleeps_app.
      specialize (IH (mkFrame (clo f) (attempt f + 1) (delay f * 2))
                     (setBusy false w)).
      cbn [attempt] in IH. destruct IH as (Hp & Hs & Ha); [lia |].
      unfold MAX_ATTEMPTS in *.
      split; [| split].
      * rewrite length_app. cbn [posts flat_map app length]. lia.
      * rewrite !length_app, Hs. reflexivity.
      * unfold alerts in *. rewrite flat_map_app. cbn [flat_map app]. exact Ha.
Qed.

Lemma drive_sleeps (rs : list Response) (f : Frame) (w : World) :
  attempt f = 0%Z ->
  sleeps (effects_of (drive rs f w)) `prefix_of` [delay f; (delay f * 2)%Z].
Proof.
  intros H0.
  destruct rs as [| r1 rs]; [cbn; apply prefix_nil |].
  destruct (drive_cons_cases r1 rs f w)
    as [(t & _ & ->) | [(_ & _ & ->) | (_ & _ & ->)]];
    [cbn; apply prefix_nil | cbn; apply prefix_nil |].
  rewrite effects_then_step, sleeps_app. cbn [sleeps flat_map app].
  apply prefix_cons.
  destruct rs as [| r2 rs]; [cbn; apply prefix_nil |].
  match goal with |- context [drive _ ?f1 ?w1] =>
    destruct (drive_cons_cases r2 rs f1 w1)
      as [(t & _ & ->) | [(_ & _ & ->) | (_ & _ & ->)]]
  end; [cbn; apply prefix_nil | cbn; apply prefix_nil |].
  rewrite effects_then_step, sleeps_app. cbn [sleeps flat_map app delay].
  apply prefix_cons.
  match goal with |- context [drive rs ?f2 ?w2] =>
    destruct (drive_budget rs f2 w2) as (Hp & Hs & _); [cbn; lia |]
  end.
  destruct (sleeps _) as [| x l]; [apply prefix_nil |].
  rewrite <- Hs in Hp. cbn [attempt length] in Hp. rewrite H0 in Hp.
  unfold MAX_ATTEMPTS in Hp. lia.
Qed.

(** X2.  A call of [send] never makes more than three requests, whatever the
    endpoint answers: it sleeps once between two requests, 1200 ms before
    the second and 2400 ms before the third, and raises at most the one
    alert of the missing key. *)
Theorem send_is_bounded (rs : list Response) (w : World) :
  (length (posts (effects_of (send rs w))) <= 3)%nat
  /\ sleeps (effects_of (send rs w)) `prefix_of` [1200; 2400]%Z
  /\ length (sleeps (effects_of (send rs w)))
     = pred (length (posts (effects_of (send rs w))))
  /\ (alerts (effects_of (send rs w)) = []
      \/ alerts (effects_of (send rs w)) = [missing_key_notice]
         /\ posts (effects_of (send rs w)) = []).
Proof.
  unfold send. rewrite send_begin_cases.
  destruct (negb (truthy (trim (input (state w)))) || busy w);
    [cbn; repeat split; [lia | apply prefix_nil | now left] |].
  destruct (negb (truthy (configured_key w)));
    [cbn; repeat split; [lia | apply prefix_nil | now right] |].
  destruct (cacheRef w !! trim (input (state w)));
    [cbn; repeat split; [lia | apply prefix_nil | now left] |].
  rewrite effects_then_step, posts_app, sleeps_app.
  cbn [posts sleeps flat_map app length pred].
  match goal with |- context [drive rs ?f0 ?w0] =>
    destruct (drive_budget rs f0 w0) as (Hp & Hs & Ha); [cbn; lia |];
    pose proof (drive_sleeps rs f0 w0 eq_refl) as Hpre
  end.
  cbn [attempt delay] in Hp, Hpre. unfold MAX_ATTEMPTS in Hp.
  split; [lia |]. split; [exact Hpre |]. split; [exact Hs |].
  left. unfold alerts in *. cbn [flat_map app]. exact Ha.
Qed.


Lemma failure_message_nonempty (r : Response) : failure_message r <> "".
Proof.
  destruct r as [o | st [m |] |]; cbn; try discriminate.
  destruct (truthy m) eqn:Hm; [now apply truthy_true_iff | discriminate].
Qed.

Lemma reply_text_nonempty (r : Response) (t : string) :
  reply_text r = Some t -> t <> "".
Proof.
  destruct r as [[t' |] | |]; cbn; try discriminate.
  destruct (truthy t') eqn:Ht; [| discriminate].
  intros [= <-]. now apply truthy_true_iff.
Qed.

Lemma wrap_reply_nonempty (c : Closure) (t : string) :
  t <> "" -> wrap_reply c t <> "".
Proof.
  intros Ht. unfold wrap_reply.
  destruct ((sentimentScore (question c) <? 0)%Z && empathicMode (rendered c));
    [| exact Ht].
  unfold empathic_header. rewrite !append_String. discriminate.
Qed.

(** Where a driven call stands: it has returned, with one assistant
    message added, [busy] cleared and the input left alone, or it still
    waits for an answer and has touched neither state nor cache. *)
Lemma drive_outcome (rs : list Response) :
  forall (f : Frame) (w : World),
    (rest_of (drive rs f w) = None
     /\ busy (world_of (drive rs f w)) = false
     /\ input (state (world_of (drive rs f w))) = input (state w)
     /\ exists m,
          chat (state (world_of (drive rs f w))) = (chat (state w) ++ [m])%list
          /\ role m = assistant /\ text m <> "" /\ cached m = false
          /\ ts m = clock w (reads w))
    \/ (exists f', rest_of (drive rs f w) = Some (AwaitPost f')
                   /\ clo f' = clo f
                   /\ state (world_of (drive rs f w)) = state w
                   /\ cacheRef (world_of (drive rs f w)) = cacheRef w
                   /\ reads (world_of (drive rs f w)) = reads w).
Proof.
  induction rs as [| r rs IH]; intros f w.
  - right. exists f. repeat split.
  - destruct (drive_cons_cases r rs f w)
      as [(t & Ht & ->) | [(_ & _ & ->) | (_ & _ & ->)]].
    + left. repeat split. eexists. repeat split.
      cbn. apply wrap_reply_nonempty. now apply (reply_text_nonempty r).
    + left. repeat split. eexists. repeat split.
      cbn. apply failure_message_nonempty.
    + rewrite rest_then_step, world_then_step.
      destruct (IH (mkFrame (clo f) (attempt f + 1) (delay f * 2))
                   (setBusy false w)) as [Hdone | Hwait].
      * left. exact Hdone.
      * right. exact Hwait.
Qed.

Lemma drive_finishes (rs : list Response) :
  forall (f : Frame) (w : World),
    (attempt f < MAX_ATTEMPTS)%Z ->
    (MAX_ATTEMPTS - attempt f <= Z.of_nat (length rs))%Z ->
    rest_of (drive rs f w) = None.
Proof.
  induction rs as [| r rs IH]; intros f w Hlt Hlen.
  - cbn in Hlen. lia.
  - destruct (drive_cons_cases r rs f w)
      as [(t & _ & ->) | [(_ & _ & ->) | (_ & Hlt' & ->)]];
      [reflexivity | reflexivity |].
    rewrite rest_then_step. apply IH; cbn [attempt]; [exact Hlt' |].
    cbn [length] in Hlen. lia.
Qed.

(** X3.  Given three answers a call of [send] always returns.  If it reached
    the network, it has then cleared the input and [busy], and the chat
    has grown by exactly two entries: the user's message and, after it,
    one assistant message with a text. *)
Theorem send_completes (rs : list Response) (w : World) :
  (3 <= length rs)%nat ->
  rest_of (send rs w) = None
  /\ (reaches_network w = true ->
      busy (world_of (send rs w)) = false
      /\ input (state (world_of (send rs w))) = ""
      /\ exists m,
           chat (state (world_of (send rs w)))
           = (chat (state w)
              ++ [mkMessage user (trim (input (state w))) (clock w (reads w))
                            false false; m])%list
           /\ role m = assistant /\ text m <> "" /\ cached m = false).
Proof.
  intros Hlen. split.
  - unfold send. rewrite send_begin_cases.
    destruct (negb (truthy (trim (input (state w)))) || busy w); [reflexivity |].
    destruct (negb (truthy (configured_key w))); [reflexivity |].
    destruct (cacheRef w !! trim (input (state w))); [reflexivity |].
    rewrite rest_then_step. apply drive_finishes; cbn [attempt]; [reflexivity |].
    unfold MAX_ATTEMPTS. lia.
  - intros Hgo. rewrite (send_miss _ w Hgo), world_then_step.
    match goal with |- context [drive rs ?f0 ?w0] =>
      destruct (drive_outcome rs f0 w0)
        as [(_ & Hb & Hi & m & Hc & Hr & Ht & Hca & _) | (f' & Hrest & _)]
    end.
    + split; [exact Hb |]. split; [rewrite Hi; reflexivity |].
      exists m. split; [| now repeat split].
      rewrite Hc. cbn. now rewrite <- app_assoc.
    + match type of Hrest with rest_of (drive rs ?f0 ?w0) = _ =>
        rewrite (drive_finishes rs f0 w0) in Hrest
      end; [discriminate | reflexivity |].
      cbn [attempt]. unfold MAX_ATTEMPTS. lia.
Qed.

Lemma send_completes_witness :
  rest_of (send [HttpError 429 None; NetworkError; Resolved (Some "unused")]
                (typed_world "k" "hello")) = None
  /\ input (state (world_of
       (send [HttpError 429 None; NetworkError; Resolved (Some "unused")]
             (typed_world "k" "hello")))) = "".
Proof.
  destruct (send_completes
              [HttpError 429 None; NetworkError; Resolved (Some "unused")]
              (typed_world "k" "hello")) as (Hrest & Hgo).
  - cbn. lia.
  - split; [exact Hrest |].
    destruct Hgo as (_ & Hin & _); [vm_compute; reflexivity | exact Hin].
Defined.




Lemma append_assoc_string (a b c : string) : (a ++ b) ++ c = a ++ (b ++ c).
Proof.
  induction a as [| x a IH]; [reflexivity |].
  now rewrite !append_String, IH.
Qed.

Lemma requests_of_drive (rs : list Response) :
  forall (f : Frame) (w : World) (url : string) (p : Payload),
    In (Post url p) (effects_of (drive rs f w)) ->
    url = GEMINI_ENDPOINT (key (clo f)) /\ p = payload_of (clo f).
Proof.
  induction rs as [| r rs IH]; intros f w url p; [cbn; tauto |].
  destruct (drive_cons_cases r rs f w)
    as [(t & _ & ->) | [(_ & _ & ->) | (_ & _ & ->)]].
  - cbn. tauto.
  - cbn. intros [H | []]. discriminate.
  - rewrite effects_then_step. intros Hin. apply in_app_or in Hin as [Hin | Hin].
    + cbn in Hin. destruct Hin as [H | [H | [H | []]]]; try discriminate.
      now injection H as <- <-.
    + apply IH in Hin. exact Hin.
Qed.

(** X5.  Every request of a call of [send] goes to the endpoint with the
    configured key, which is not empty, and carries one content of role
    user with one part: the composed prompt, which ends with
    [User message: ] followed by the trimmed input after command
    expansion. *)
Theorem request_carries_routed_input
    (rs : list Response) (w : World) (url : string) (p : Payload) :
  In (Post url p) (effects_of (send rs w)) ->
  url = GEMINI_ENDPOINT (configured_key w)
  /\ configured_key w <> ""
  /\ exists prompt lead,
       contents p = [mkContent user [prompt]]
       /\ prompt = lead ++ "User message: "
                        ++ routeSlashCommand (trim (input (state w))).
Proof.
  unfold send. rewrite send_begin_cases.
  destruct (negb (truthy (trim (input (state w)))) || busy w); [cbn; tauto |].
  destruct (negb (truthy (configured_key w))) eqn:Hk;
    [cbn; intros [H | []]; discriminate |].
  destruct (cacheRef w !! trim (input (state w))); [cbn; tauto |].
  rewrite effects_then_step. intros Hin.
  assert (Hp : url = GEMINI_ENDPOINT (configured_key w)
               /\ p = payload_of (closure_of w)).
  { apply in_app_or in Hin as [[H | []] | Hin].
    - now injection H as <- <-.
    - apply requests_of_drive in Hin. exact Hin. }
  destruct Hp as (-> & ->).
  split; [reflexivity |].
  split; [apply truthy_true_iff; now apply negb_false_iff |].
  eexists. eexists. split; [reflexivity |].
  cbn [enhanced closure_of]. unfold enhancePrompt.
  rewrite <- !append_assoc_string. reflexivity.
Qed.

Lemma request_carries_routed_input_witness :
  exists lead,
    map (fun p => parts <$> contents p)
        (posts (effects_of (send [] (typed_world "k" "/coach I stall"))))
    = [[[lead ++ "User message: " ++ coach_template ++ "I stall"]]].
Proof.
  destruct (request_carries_routed_input [] (typed_world "k" "/coach I stall")
              (GEMINI_ENDPOINT "k")
              (payload_of (closure_of (typed_world "k" "/coach I stall"))))
    as (_ & _ & prompt & lead & Hc & Hp).
  - vm_compute. left. reflexivity.
  - exists lead. 
    change (posts (effects_of (send [] (typed_world "k" "/coach I stall"))))
      with [payload_of (closure_of (typed_world "k" "/coach I stall"))].
    cbn [map]. rewrite Hc. cbn [fmap list_fmap parts]. rewrite Hp.
    reflexivity.
Defined.

(* ===================================================================== *)
(** ** Properties of the page as a whole *)
(* ===================================================================== *)

Lemma on_reply_cases (r : Response) (f : Frame) (w : World) :
  (exists t, t <> ""
             /\ on_reply r f w
                = (setBusy false
                     (say assistant (wrap_reply (clo f) t) false false
                          (cache_set (question (clo f)) (wrap_reply (clo f) t) w)),
                   [], None))
  \/ on_reply r f w
     = (setBusy false (say assistant (failure_message r) false true w),
        [ConsoleError], None)
  \/ on_reply r f w
     = (w, [ConsoleError; Sleep (delay f)],
        Some (AwaitSleep (mkFrame (clo f) (attempt f + 1) (delay f)))).
Proof.
  unfold on_reply. destruct (reply_text r) as [t |] eqn:Hr.
  - left. exists t. split; [now apply (reply_text_nonempty r) | reflexivity].
  - right. destruct (is_429 r && (attempt f + 1 <? MAX_ATTEMPTS)%Z);
      [right | left]; reflexivity.
Qed.

Lemma on_timer_cases (f : Frame) (w : World) :
  exists k eff,
    on_timer f w = (setBusy false w, eff, k)
    /\ (k = None \/ exists f', k = Some (AwaitPost f') /\ clo f' = clo f).
Proof.
  unfold on_timer, loop_head. cbn [attempt clo].
  destruct (attempt f <? MAX_ATTEMPTS)%Z.
  - eexists. eexists. split; [reflexivity |]. right. eexists. split; reflexivity.
  - eexists. eexists. split; [reflexivity |]. now left.
Qed.

Lemma chat_ui_update (e : UiEvent) (s : State) :
  chat (ui_update e s) = chat s \/ chat (ui_update e s) = [].
Proof. destruct e as [| | | | | | | | | | [] |]; cbn; auto. Qed.

(** Every event makes one of the moves. *)
Lemma ui_step_moves (e : UiEvent) (sys : System) :
  moves sys (fst (ui_step e sys)) (snd (ui_step e sys)).
Proof.
  destruct e as [c | | | | | | | | | | |];
    try (cbn [ui_step fst snd]; apply move_update; intros s;
         match goal with |- context [ui_update ?e s] => apply (chat_ui_update e s) end).
  destruct c as [v | | i r | i]; cbn [ui_step step].
  - cbn [fst snd]. apply move_update. intros s. now left.
  - rewrite send_begin_cases.
    destruct (negb (truthy (trim (input (state (world sys))))) || busy (world sys))
      eqn:Hg; [cbn [fst snd]; now apply move_refused |].
    destruct (negb (truthy (configured_key (world sys)))) eqn:Hk;
      [cbn [fst snd]; now apply move_refused |].
    apply orb_false_iff in Hg as [Hq Hb]. apply negb_false_iff in Hq, Hk.
    destruct (cacheRef (world sys) !! trim (input (state (world sys)))) eqn:Hc.
    + cbn [fst snd]. apply move_hit; [now apply truthy_true_iff | exact Hc].
    + cbn [fst snd]. apply move_miss. unfold reaches_network.
      rewrite Hq, Hb, Hk. cbn. now apply bool_decide_eq_true.
  - destruct (calls sys !! i) as [[[f | f] |] |] eqn:Hi;
      try (cbn [fst snd]; apply move_none).
    destruct (on_reply_cases r f (world sys)) as [(t & Ht & ->) | [-> | ->]];
      cbn [fst snd].
    + now apply move_answer.
    + now apply (move_fail sys i f).
    + now apply move_sleep.
  - destruct (calls sys !! i) as [[[f | f] |] |] eqn:Hi;
      try (cbn [fst snd]; apply move_none).
    destruct (on_timer_cases f (world sys)) as (k & eff & -> & Hk).
    cbn [fst snd]. now apply (move_wake sys i f).
Qed.

Lemma ui_steps_cons (e : UiEvent) (es : list UiEvent) (sys : System) :
  fst (ui_steps (e :: es) sys) = fst (ui_steps es (fst (ui_step e sys)))
  /\ snd (ui_steps (e :: es) sys)
     = (snd (ui_step e sys) ++ snd (ui_steps es (fst (ui_step e sys))))%list.
Proof.
  cbn [ui_steps]. destruct (ui_step e sys) as [sys1 eff1]. cbn [fst snd].
  destruct (ui_steps es sys1) as [sys2 eff2]. split; reflexivity.
Qed.

(** An invariant of the moves holds along every run. *)
Lemma ui_steps_invariant (P : System -> Prop) :
  (forall sys sys' eff, moves sys sys' eff -> P sys -> P sys') ->
  forall es sys, P sys -> P (fst (ui_steps es sys)).
Proof.
  intros Hstep es. induction es as [| e es IH]; intros sys HP; [exact HP |].
  rewrite (proj1 (ui_steps_cons e es sys)). apply IH.
  exact (Hstep _ _ _ (ui_step_moves e sys) HP).
Qed.

Lemma cache_ok_insert (c : gmap string string) (k v : string) :
  cache_ok c -> k <> "" -> v <> "" -> cache_ok (<[k:=v]> c).
Proof.
  intros Hc Hk Hv k' v' Hl.
  destruct (decide (k = k')) as [<- | Hne].
  - rewrite lookup_insert_eq in Hl. injection Hl as <-. now split.
  - rewrite lookup_insert_ne in Hl by exact Hne. now apply (Hc k' v').
Qed.

Lemma message_ok_user (q now : string) :
  q <> "" -> message_ok (mkMessage user q now false false).
Proof.
  intros Hq. unfold message_ok. cbn [text role cached error].
  split; [exact Hq |]. split; [now split | discriminate].
Qed.

Lemma message_ok_reply (t now : string) (c e : bool) :
  t <> "" -> c && e = false -> message_ok (mkMessage assistant t now c e).
Proof.
  intros Ht Hce. unfold message_ok. cbn [text role cached error].
  split; [exact Ht |]. split; [discriminate |].
  intros ->. exact Hce.
Qed.

Lemma moves_page_ok (sys sys' : System) (eff : list Effect) :
  moves sys sys' eff -> page_ok sys -> page_ok sys'.
Proof.
  intros Hm (Hchat & Hcache & Hcalls).
  destruct Hm as [| g Hg | eff Hp | hit Hq Hhit | Hgo | i f t Hi Ht
                  | i f r Hi | i f Hi | i f k eff Hi Hk];
    unfold page_ok; cbn [world calls].
  - split; [| split]; assumption.
  - split; [| split]; [| exact Hcache | exact Hcalls].
    cbn. destruct (Hg (state (world sys))) as [-> | ->];
      [exact Hchat | constructor].
  - split; [| split]; [exact Hchat | exact Hcache |].
    apply Forall_app. split; [exact Hcalls |]. apply Forall_singleton. exact I.
  - split; [| split]; [| exact Hcache |].
    + rewrite chat_after_hit. apply Forall_app. split; [exact Hchat |].
      apply Forall_cons. split; [now apply message_ok_user |].
      apply Forall_singleton.
      apply message_ok_reply; [| reflexivity]. now apply (Hcache _ _ Hhit).
    + apply Forall_app. split; [exact Hcalls |]. apply Forall_singleton. exact I.
  - apply reaches_network_inv in Hgo as (Hq & _). apply truthy_true_iff in Hq.
    split; [| split]; [| exact Hcache |].
    + change (chat (state (setBusy true (outgoing_posted (world sys)))))
        with (chat (state (outgoing_posted (world sys)))).
      rewrite chat_outgoing_posted. apply Forall_app. split; [exact Hchat |].
      apply Forall_singleton. now apply message_ok_user.
    + apply Forall_app. split; [exact Hcalls |].
      apply Forall_singleton. exact Hq.
  - pose proof (Forall_lookup_1 _ _ _ _ Hcalls Hi) as Hf. cbn in Hf.
    destruct (after_success f t (world sys)) as (Hc & Hca & _).
    split; [| split].
    + rewrite Hc. apply Forall_app. split; [exact Hchat |].
      apply Forall_singleton. apply message_ok_reply; [| reflexivity].
      now apply wrap_reply_nonempty.
    + rewrite Hca. apply cache_ok_insert; [exact Hcache | exact Hf |].
      now apply wrap_reply_nonempty.
    + apply Forall_insert; [exact Hcalls | exact I].
  - split; [| split]; [| exact Hcache |].
    + cbn. apply Forall_app. split; [exact Hchat |].
      apply Forall_singleton. apply message_ok_reply; [| reflexivity].
      apply failure_message_nonempty.
    + apply Forall_insert; [exact Hcalls | exact I].
  - pose proof (Forall_lookup_1 _ _ _ _ Hcalls Hi) as Hf. cbn in Hf.
    split; [| split]; [exact Hchat | exact Hcache |].
    apply Forall_insert; [exact Hcalls | exact Hf].
  - pose proof (Forall_lookup_1 _ _ _ _ Hcalls Hi) as Hf. cbn in Hf.
    split; [| split]; [exact Hchat | exact Hcache |].
    apply Forall_insert; [exact Hcalls |].
    destruct Hk as [-> | (f' & -> & Hclo)]; [exact I |].
    unfold call_ok. cbn. now rewrite Hclo.
Qed.

(** X6.  Whatever happens on the page (typing, sending, answers, timeouts,
    settings, presets, quick replies, clearing, dictation), in any order
    and with calls overlapping, a well-formed page stays well-formed:
    every chat entry has a text, user entries carry no flag, no entry is
    both cached and error, and the cache maps non-empty questions to
    non-empty answers. *)
Theorem page_stays_well_formed (es : list UiEvent) (sys : System) :
  page_ok sys -> page_ok (fst (ui_steps es sys)).
Proof.
  apply (ui_steps_invariant page_ok). exact moves_page_ok.
Qed.

Lemma page_stays_well_formed_witness :
  Forall message_ok
    (chat (state (world (fst (ui_steps
       [Core UserSends; SetEmpathicMode false; Core (Reply 0 (HttpError 429 None));
        ClickQuickReply "Tell me more"; Core (TimerFires 0);
        Core (Reply 0 (Resolved (Some "I hear you."))); Core UserSends]
       (boot (typed_world "k" "I feel sad"))))))).
Proof.
  refine (proj1 (page_stays_well_formed _ (boot (typed_world "k" "I feel sad")) _)).
  split; [constructor | split; [| constructor]].
  intros q v Hl. vm_compute in Hl. discriminate.
Defined.

Lemma moves_keep_cached (q : string) (sys sys' : System) (eff : list Effect) :
  moves sys sys' eff ->
  is_Some (cacheRef (world sys) !! q) -> is_Some (cacheRef (world sys') !! q).
Proof.
  intros Hm Hq.
  destruct Hm; cbn [world]; try exact Hq.
  destruct (after_success f t (world sys)) as (_ & -> & _).
  apply lookup_insert_is_Some'. now right.
Qed.

(** X7.  An answer, once cached, stays cached for the rest of the session:
    no event removes it, a confirmed Clear of the chat included.  A send
    of that question that passes the guards is then always served from
    the cache: no request, no timer, nothing left suspended. *)
Theorem cached_answers_survive (es : list UiEvent) (sys : System) (q : string) :
  is_Some (cacheRef (world sys) !! q) ->
  let w' := world (fst (ui_steps es sys)) in
  is_Some (cacheRef w' !! q)
  /\ (trim (input (state w')) = q -> q <> "" -> busy w' = false ->
      configured_key w' <> "" ->
      forall rs, effects_of (send rs w') = [] /\ rest_of (send rs w') = None).
Proof.
  intros Hq w'.
  assert (Hq' : is_Some (cacheRef w' !! q)).
  { subst w'. revert Hq.
    apply (ui_steps_invariant (fun s => is_Some (cacheRef (world s) !! q))).
    intros a b eff. apply moves_keep_cached. }
  split; [exact Hq' |].
  intros Hin Hne Hb Hk rs. destruct Hq' as [hit Hhit].
  rewrite <- Hin in Hhit, Hne.
  rewrite (send_hit rs w' hit Hne Hb Hk Hhit). split; reflexivity.
Qed.

Lemma cached_answers_survive_witness :
  effects_of (send [] (world (fst (ui_steps
     [ClickClear true; SetEmpathicMode false; VoiceResult " I feel sad"]
     (boot after_first_send)))))
  = [].
Proof.
  refine (proj1 (proj2 (cached_answers_survive
     [ClickClear true; SetEmpathicMode false; VoiceResult " I feel sad"]
     (boot after_first_send) "I feel sad" _) _ _ _ _ [])).
  - vm_compute. eexists. reflexivity.
  - vm_compute. reflexivity.
  - discriminate.
  - reflexivity.
  - vm_compute. discriminate.
Defined.

Lemma no_call_in_flight (l : list (option Susp)) :
  length (filter (fun k => is_Some k) l) = 0%nat -> Forall (fun k => k = None) l.
Proof.
  induction l as [| [s |] l IH]; intros H.
  - constructor.
  - rewrite filter_cons_True in H by (now eexists). discriminate.
  - rewrite filter_cons_False in H by (intros [? ?]; discriminate).
    constructor; [reflexivity | now apply IH].
Qed.

Lemma moves_idle_not_busy (sys sys' : System) (eff : list Effect) :
  moves sys sys' eff ->
  (Forall (fun k => k = None) (calls sys) -> busy (world sys) = false) ->
  Forall (fun k => k = None) (calls sys') -> busy (world sys') = false.
Proof.
  intros Hm IH.
  destruct Hm as [| g Hg | eff Hp | hit Hq Hhit | Hgo | i f t Hi Ht
                  | i f r Hi | i f Hi | i f k eff Hi Hk];
    cbn [world calls]; intros Hall; try reflexivity.
  - now apply IH.
  - now apply IH.
  - apply Forall_app in Hall as [Hall _]. now apply IH.
  - apply Forall_app in Hall as [Hall _]. now apply IH.
  - apply Forall_app in Hall as [_ Hall]. rewrite Forall_singleton in Hall.
    discriminate.
  - apply lookup_lt_Some in Hi.
    pose proof (Forall_lookup_1 _ _ i _ Hall (list_lookup_insert_eq _ _ _ Hi)) as H.
    cbn beta in H. discriminate.
Qed.

(** X8.  The page never stays stuck in busy.  From a page with no send under
    way, after any events in any order: whenever every call of [send]
    made so far has returned, [busy] is cleared, so the next send is not
    refused for it. *)
Theorem busy_cleared_when_idle (es : list UiEvent) (w : World) :
  busy w = false ->
  in_flight (fst (ui_steps es (boot w))) = 0%nat ->
  busy (world (fst (ui_steps es (boot w)))) = false.
Proof.
  intros Hb Hidle.
  pose proof (ui_steps_invariant
                (fun s => Forall (fun k => k = None) (calls s)
                          -> busy (world s) = false)
                moves_idle_not_busy es (boot w) (fun _ => Hb)) as H.
  apply H. now apply no_call_in_flight.
Qed.

Lemma busy_cleared_when_idle_witness :
  busy (world (fst (ui_steps
     [Core UserSends; Core (Reply 0 (HttpError 429 None)); Core (TimerFires 0);
      Core (Reply 0 NetworkError)]
     (boot (typed_world "k" "hello"))))) = false.
Proof.
  apply (busy_cleared_when_idle _ (typed_world "k" "hello")).
  - reflexivity.
  - vm_compute. reflexivity.
Defined.

Lemma core_step_extends (c : Event) (sys : System) :
  chat (state (world sys)) `prefix_of` chat (state (world (fst (step c sys)))).
Proof.
  destruct c as [v | | i r | i]; cbn [step].
  - reflexivity.
  - rewrite send_begin_cases.
    destruct (negb (truthy (trim (input (state (world sys))))) || busy (world sys));
      [reflexivity |].
    destruct (negb (truthy (configured_key (world sys)))); [reflexivity |].
    destruct (cacheRef (world sys) !! trim (input (state (world sys)))).
    + cbn [fst world]. rewrite chat_after_hit. now apply prefix_app_r.
    + cbn [fst world]. now apply prefix_app_r.
  - destruct (calls sys !! i) as [[[f | f] |] |]; try reflexivity.
    destruct (on_reply_cases r f (world sys)) as [(t & _ & ->) | [-> | ->]];
      cbn [fst world]; try reflexivity; now apply prefix_app_r.
  - destruct (calls sys !! i) as [[[f | f] |] |]; try reflexivity.
    destruct (on_timer_cases f (world sys)) as (k & eff & -> & _).
    reflexivity.
Qed.

(** X9.  Under the events of the page other than the import of a file
    (typing, sending, answers, timeouts, settings, presets, quick replies,
    the Clear button, a dictation result), and short of a confirmed Clear,
    the chat is append-only: after any such events, in any order, the chat
    there was is still there, entry for entry and in order, at the head of
    the chat there is.  An accepted import puts the file in the place of
    the whole state and is not one of these events. *)
Theorem chat_is_append_only (es : list UiEvent) (sys : System) :
  Forall (fun e => e <> ClickClear true) es ->
  chat (state (world sys))
    `prefix_of` chat (state (world (fst (ui_steps es sys)))).
Proof.
  revert sys. induction es as [| e es IH]; intros sys Hall; [reflexivity |].
  apply Forall_cons in Hall as [He Hall].
  rewrite (proj1 (ui_steps_cons e es sys)).
  transitivity (chat (state (world (fst (ui_step e sys))))); [| now apply IH].
  destruct e as [c | | | | | | | | | | [] |]; try reflexivity.
  - apply core_step_extends.
  - congruence.
Qed.

Lemma chat_is_append_only_witness :
  chat (state after_first_send)
    `prefix_of`
  chat (state (world (fst (ui_steps
     [ClickClear false; ClickPreset (mkPreset "Coach" "Act as a coach");
      Core UserSends; Core (Reply 0 NetworkError)]
     (boot after_first_send))))).
Proof.
  apply (chat_is_append_only _ (boot after_first_send)).
  repeat constructor; discriminate.
Defined.

Lemma same_but_settings_refl (a : System) : same_but_settings a a.
Proof. now repeat split. Qed.

Lemma setting_is_invisible (e : UiEvent) (a b : System) :
  is_setting e = true -> same_but_settings a b ->
  same_but_settings (fst (ui_step e a)) b /\ snd (ui_step e a) = [].
Proof.
  intros He (H1 & H2 & H3 & H4 & H5 & H6 & H7).
  destruct e; try discriminate; cbn; now repeat split.
Qed.

Lemma settling_reads_no_settings (e : UiEvent) (a b : System) :
  is_settling e = true -> same_but_settings a b ->
  same_but_settings (fst (ui_step e a)) (fst (ui_step e b))
  /\ snd (ui_step e a) = snd (ui_step e b).
Proof.
  intros He HR.
  pose proof HR as (H1 & H2 & H3 & H4 & H5 & H6 & H7).
  destruct e as [[v | | i r | i] | | | | | | | | | | |]; try discriminate;
    cbn [ui_step step]; rewrite <- H1.
  - destruct (calls a !! i) as [[[f | f] |] |]; try (split; [exact HR | reflexivity]).
    unfold on_reply.
    destruct (reply_text r) as [t |];
      [| destruct (is_429 r && (attempt f + 1 <? MAX_ATTEMPTS)%Z)];
      cbn; rewrite <- ?H1, <- ?H3, <- ?H4, <- ?H5;
      unfold same_but_settings, setBusy, setState, append_message, with_chat_input;
      cbn; rewrite <- ?H6; repeat split; assumption.
  - destruct (calls a !! i) as [[[f | f] |] |]; try (split; [exact HR | reflexivity]).
    unfold on_timer, loop_head.
    destruct (attempt _ <? MAX_ATTEMPTS)%Z;
      cbn; rewrite <- ?H1; repeat split; assumption.
Qed.

Lemma settings_do_not_reach_calls_from (es : list UiEvent) :
  forall a b : System,
    forallb (fun e => is_setting e || is_settling e) es = true ->
    same_but_settings a b ->
    same_but_settings (fst (ui_steps es a))
                      (fst (ui_steps (List.filter is_settling es) b))
    /\ snd (ui_steps es a) = snd (ui_steps (List.filter is_settling es) b).
Proof.
  induction es as [| e es IH]; intros a b Hall HR.
  - split; [exact HR | reflexivity].
  - cbn [forallb] in Hall. apply andb_true_iff in Hall as [He Hall].
    destruct (ui_steps_cons e es a) as (-> & ->).
    cbn [List.filter]. destruct (is_settling e) eqn:Hs.
    + destruct (settling_reads_no_settings e a b Hs HR) as (HR' & Heff).
      destruct (ui_steps_cons e (List.filter is_settling es) b) as (-> & ->).
      destruct (IH _ _ Hall HR') as (HR'' & Heff').
      split; [exact HR'' | now rewrite Heff, Heff'].
    + rewrite orb_false_r in He.
      destruct (setting_is_invisible e a b He HR) as (HR' & ->).
      apply (IH _ _ Hall HR').
Qed.

(** X10.  Calls of [send] under way do not see the settings panel.  Take any
    run made of answers, timeouts and changes of settings (key,
    temperature, topP, topK, empathic mode, quick replies, presets): the
    requests, sleeps and log entries are those of the same run without the
    changes of settings, and so are the chat, the cache, the busy flag and
    the calls left suspended. *)
Theorem settings_do_not_reach_calls (es : list UiEvent) (sys : System) :
  forallb (fun e => is_setting e || is_settling e) es = true ->
  snd (ui_steps es sys) = snd (ui_steps (List.filter is_settling es) sys)
  /\ same_but_settings (fst (ui_steps es sys))
                       (fst (ui_steps (List.filter is_settling es) sys)).
Proof.
  intros Hall.
  destruct (settings_do_not_reach_calls_from es sys sys Hall
              (same_but_settings_refl sys)) as (HR & Heff).
  split; [exact Heff | exact HR].
Qed.

Lemma settings_do_not_reach_calls_witness :
  let started := fst (ui_steps [Core UserSends] (boot (typed_world "k" "I feel sad"))) in
  map text (chat (state (world (fst (ui_steps
     [SetEmpathicMode false; SetApiKey ""; Core (Reply 0 (HttpError 429 None));
      SetTemperature (Fin 2); Core (TimerFires 0);
      Core (Reply 0 (Resolved (Some "I hear you.")))]
     started)))))
  = ["I feel sad"; empathic_header ++ "I hear you."].
Proof.
  intros started.
  destruct (settings_do_not_reach_calls
     [SetEmpathicMode false; SetApiKey ""; Core (Reply 0 (HttpError 429 None));
      SetTemperature (Fin 2); Core (TimerFires 0);
      Core (Reply 0 (Resolved (Some "I hear you.")))]
     started eq_refl) as (_ & HR).
  destruct HR as (_ & _ & _ & _ & _ & -> & _).
  vm_compute. reflexivity.
Defined.

(* ===================================================================== *)
(** ** Properties: quick replies, presets, persistence *)
(* ===================================================================== *)

Lemma find_none_all_users (c : list Message) :
  List.find is_assistant c = None <-> Forall (fun m => role m = user) c.
Proof.
  induction c as [| m c IH]; cbn [List.find]; [split; [constructor | reflexivity] |].
  unfold is_assistant at 1. destruct (role m) eqn:Hr.
  - rewrite IH. split; [intros H; now constructor | intros H; now inversion H].
  - split; [discriminate |]. intros H. inversion H. congruence.
Qed.

Lemma last_assistant_none (c : list Message) :
  last_assistant c = None <-> Forall (fun m => role m = user) c.
Proof.
  unfold last_assistant. rewrite find_none_all_users.
  rewrite !List.Forall_forall. split; intros H m Hm; apply H.
  - now apply in_rev in Hm.
  - now apply in_rev.
Qed.

Lemma last_assistant_snoc (c : list Message) (m : Message) :
  last_assistant (c ++ [m])
  = if is_assistant m then Some m else last_assistant c.
Proof. unfold last_assistant. rewrite rev_app_distr. reflexivity. Qed.

(** X11.  The quick replies are none at all, when they are switched off or the
    chat has no assistant entry, or exactly five: two that follow the
    tone of the latest assistant entry, whatever was said after it, and
    the first three of the five stock replies.  The last two stock
    replies are never offered. *)
Theorem quickReplies_are_none_or_five (s : State) :
  (quickReplies_memo s = []
   <-> quickReplies s = false \/ Forall (fun m => role m = user) (chat s))
  /\ (forall last, quickReplies s = true -> last_assistant (chat s) = Some last ->
        quickReplies_memo s
        = (if (sentimentScore (text last) <? 0)%Z
           then ["I feel overwhelmed"; "I need reassurance"]
           else ["Sounds good"; "Let's plan a step"])
          ++ ["Tell me more"; "That resonates"; "Can you give examples?"])%list
  /\ ~ In "What's one next step?" (quickReplies_memo s)
  /\ ~ In "Reframe this kindly" (quickReplies_memo s).
Proof.
  unfold quickReplies_memo.
  destruct (quickReplies s); cbn [negb].
  - destruct (last_assistant (chat s)) as [last |] eqn:Hl.
    + split; [| split].
      * split.
        -- destruct (sentimentScore (text last) <? 0)%Z; discriminate.
        -- intros [H | H]; [discriminate |].
           apply last_assistant_none in H. congruence.
      * intros last' _ [= <-].
        now destruct (sentimentScore (text last) <? 0)%Z.
      * destruct (sentimentScore (text last) <? 0)%Z; cbn;
          split; intros H; repeat (destruct H as [H | H]; [discriminate |]);
          exact H.
    + split; [| split].
      * split; [intros _; right; now apply last_assistant_none | reflexivity].
      * intros last' _ H. discriminate.
      * split; intros [].
  - split; [| split].
    + split; [intros _; now left | reflexivity].
    + intros last' H. discriminate.
    + split; intros [].
Qed.

Lemma quickReplies_are_none_or_five_witness :
  quickReplies_memo (state after_first_send)
  = ["Sounds good"; "Let's plan a step";
     "Tell me more"; "That resonates"; "Can you give examples?"].
Proof.
  destruct (quickReplies_are_none_or_five (state after_first_send))
    as (_ & Hfive & _).
  rewrite (Hfive (mkMessage assistant (empathic_header ++ "I hear you.")
                            "2025-01-01T00:00:00.000Z" false false));
    vm_compute; reflexivity.
Defined.

Module PresetEditorFacts.
Import PresetEditor.

Lemma map_from_alter (g : Preset -> Preset) (i : nat) (p : list Preset) :
  forall k,
    map_from (fun idx x => if Nat.eqb idx (k + i) then g x else x) k p
    = alter g i p.
Proof.
  revert i. induction p as [| x p IH]; intros i k; [reflexivity |].
  cbn [map_from]. destruct i as [| i].
  - rewrite Nat.add_0_r, Nat.eqb_refl. cbn. f_equal.
    clear IH. revert k. 
    assert (H : forall n k, (k < n)%nat ->
              map_from (fun idx x => if Nat.eqb idx k then g x else x) n p = p).
    { clear x. induction p as [| y p IHp]; intros n k Hlt; [reflexivity |].
      cbn [map_from]. destruct (Nat.eqb_spec n k); [lia |].
      f_equal. apply IHp. lia. }
    intros k. apply H. lia.
  - destruct (Nat.eqb_spec k (k + S i)); [lia |].
    cbn. f_equal. rewrite <- (IH i (S k)).
    replace (S k + i)%nat with (k + S i)%nat by lia. reflexivity.
Qed.

Lemma filter_from_delete (i : nat) (p : list Preset) :
  forall k,
    filter_from (fun idx _ => negb (Nat.eqb idx (k + i))) k p = delete i p.
Proof.
  revert i. induction p as [| x p IH]; intros i k; [now destruct i |].
  cbn [filter_from]. destruct i as [| i].
  - rewrite Nat.add_0_r, Nat.eqb_refl. cbn.
    assert (H : forall n k, (k < n)%nat ->
              filter_from (fun idx _ => negb (Nat.eqb idx k)) n p = p).
    { clear x IH. induction p as [| y p IHp]; intros n k' Hlt; [reflexivity |].
      cbn [filter_from]. destruct (Nat.eqb_spec n k'); [lia |].
      cbn. f_equal. apply IHp. lia. }
    apply H. lia.
  - destruct (Nat.eqb_spec k (k + S i)); [lia |].
    cbn. f_equal. replace (k + S i)%nat with (S k + i)%nat by lia. apply IH.
Qed.

Lemma update_alter (i : nat) (field : Field) (val : string) (p : list Preset) :
  update i field val p = alter (set_field field val) i p.
Proof. exact (map_from_alter (set_field field val) i p 0). Qed.

Lemma remove_delete (i : nat) (p : list Preset) : remove i p = delete i p.
Proof. exact (filter_from_delete i p 0). Qed.

(** X13.  [update(i, field, val)] rewrites the one field of the one preset at
    index [i] and nothing else: the list keeps its length, every other
    entry is as it was, and an index past the end changes nothing. *)
Theorem update_touches_one_entry
    (i : nat) (field : Field) (val : string) (p : list Preset) :
  length (update i field val p) = length p
  /\ update i field val p !! i = set_field field val <$> p !! i
  /\ (forall j, j <> i -> update i field val p !! j = p !! j)
  /\ ((length p <= i)%nat -> update i field val p = p)
  /\ (forall x, p !! i = Some x ->
        match field with
        | label_field => prompt (set_field field val x) = prompt x
                         /\ label (set_field field val x) = val
        | prompt_field => label (set_field field val x) = label x
                          /\ prompt (set_field field val x) = val
        end).
Proof.
  rewrite update_alter.
  split; [apply length_alter |].
  split; [apply list_lookup_alter_eq |].
  split; [intros j Hj; now apply list_lookup_alter_ne |].
  split.
  - intros Hlen. apply list_eq. intros j.
    destruct (decide (j = i)) as [-> | Hne].
    + rewrite list_lookup_alter_eq. now rewrite (lookup_ge_None_2 p i).
    + now apply list_lookup_alter_ne.
  - intros x _. destruct field; split; reflexivity.
Qed.

Lemma update_touches_one_entry_witness :
  label <$> update 1 label_field "Mentor" (presets initial_state)
  = ["Empathic"; "Mentor"; "Solution"; "Journal"]
  /\ update 7 label_field "Mentor" (presets initial_state) = presets initial_state.
Proof.
  destruct (update_touches_one_entry 7 label_field "Mentor" (presets initial_state))
    as (_ & _ & _ & Hge & _).
  split; [reflexivity | apply Hge; cbn; lia].
Defined.

(** X14.  [remove(i)] drops the entry at index [i] and keeps the others in
    order; past the end it drops nothing.  Removing what [add()] has just
    appended gives the list back. *)
Theorem remove_drops_one_entry (i : nat) (p : list Preset) :
  remove i p = (take i p ++ drop (S i) p)%list
  /\ ((i < length p)%nat -> length (remove i p) = pred (length p))
  /\ ((length p <= i)%nat -> remove i p = p)
  /\ remove (length p) (add p) = p
  /\ (forall field val, remove i (update i field val p) = remove i p).
Proof.
  rewrite remove_delete.
  assert (Hd : forall (l : list Preset) n, delete n l = (take n l ++ drop (S n) l)%list).
  { intros l n. revert l. induction n as [| n IHn]; intros [| y l]; try reflexivity.
    cbn. f_equal. apply IHn. }
  split; [apply Hd |].
  split; [intros Hlt; rewrite length_delete; [lia | now apply lookup_lt_is_Some] |].
  split.
  - intros Hge. rewrite Hd, take_ge, drop_ge by lia. apply app_nil_r.
  - split.
    + rewrite remove_delete. unfold add.
      rewrite Hd, take_app_length, drop_ge; [apply app_nil_r |].
      rewrite length_app. cbn. lia.
    + intros field val.
      rewrite remove_delete, update_alter, !Hd.
      rewrite take_alter_ge by lia. rewrite drop_alter_lt by lia. reflexivity.
Qed.

Lemma remove_drops_one_entry_witness :
  length (remove 1 (presets initial_state)) = 3%nat
  /\ remove 9 (presets initial_state) = presets initial_state.
Proof.
  destruct (remove_drops_one_entry 1 (presets initial_state)) as (_ & Hlen & _).
  destruct (remove_drops_one_entry 9 (presets initial_state)) as (_ & _ & Hge & _).
  split; [apply Hlen | apply Hge]; cbn; lia.
Defined.

End PresetEditorFacts.

Section PersistenceFacts.

Variable JSON_parse : string -> string + json.
Variable JSON_stringify : json -> string.

(** X15.  The state cell starts from the default whenever the storage cannot
    be read, holds nothing, holds the empty string or holds text that does
    not parse.  Text that parses is taken as the state whatever it is:
    the loader has no check of its own, so a stored [null], number or
    string, which [importChat] refuses and answers with an alert, becomes
    the state. *)
Theorem load_falls_back_but_does_not_validate (initial : json) :
  load JSON_parse initial ReadThrows = initial
  /\ load JSON_parse initial ReadNull = initial
  /\ load JSON_parse initial (ReadValue "") = initial
  /\ (forall raw message,
        JSON_parse raw = inl message ->
        load JSON_parse initial (ReadValue raw) = initial)
  /\ (forall raw data,
        raw <> "" -> JSON_parse raw = inr data ->
        load JSON_parse initial (ReadValue raw) = data
        /\ (~ non_null_object data ->
            forall cell,
              fst (importChat JSON_parse raw cell) = cell
              /\ snd (importChat JSON_parse raw cell)
                 = [Alert "Import failed: Invalid file"])).
Proof.
  split; [reflexivity |]. split; [reflexivity |]. split; [reflexivity |].
  split.
  - intros raw message Hp. cbn [load]. rewrite Hp. now destruct (truthy raw).
  - intros raw data Hraw Hp. apply truthy_true_iff in Hraw.
    split; [cbn [load]; now rewrite Hraw, Hp |].
    intros Hno cell. unfold importChat. rewrite Hp.
    destruct (negb (json_truthy data) || negb (typeof_object data)) eqn:Hacc.
    + split; reflexivity.
    + apply accepted_iff in Hacc. contradiction.
Qed.



End PersistenceFacts.

Lemma load_falls_back_but_does_not_validate_witness :
  load toy_parse (JObject []) (ReadValue "null") = JNull
  /\ fst (importChat toy_parse "null" (JObject [])) = JObject [].
Proof.
  destruct (load_falls_back_but_does_not_validate toy_parse (JObject []))
    as (_ & _ & _ & _ & H).
  destruct (H "null" JNull) as (Hload & Himport);
    [discriminate | reflexivity |].
  split; [exact Hload |].
  apply Himport. intros [_ Hnn]. now apply Hnn.
Defined.


(* ===================================================================== *)
(** ** Properties: class names *)
(* ===================================================================== *)

Lemma join_space_cons (x : string) (l : list string) :
  l <> [] -> join_space (x :: l) = x ++ String space (join_space l).
Proof. destruct l; [congruence | reflexivity]. Qed.

Lemma join_space_empty_iff (l : list string) :
  Forall (fun x => x <> "") l -> (join_space l = "" <-> l = []).
Proof.
  intros Hall. split; [| now intros ->].
  destruct l as [| x l]; [reflexivity |]. intros H.
  apply Forall_cons in Hall as [Hx _].
  destruct l as [| y l]; cbn [join_space] in H; [congruence |].
  destruct x; [congruence |]. rewrite append_String in H. discriminate.
Qed.

Lemma join_space_app (a b : list string) :
  a <> [] -> b <> [] ->
  join_space (a ++ b) = join_space a ++ String space (join_space b).
Proof.
  intros Ha Hb. induction a as [| x a IH]; [congruence |].
  destruct a as [| y a].
  - cbn [app]. now rewrite join_space_cons.
  - change ((x :: y :: a) ++ b)%list with (x :: ((y :: a) ++ b))%list.
    rewrite join_space_cons by discriminate.
    rewrite IH by discriminate.
    rewrite (join_space_cons x (y :: a)) by discriminate.
    now rewrite append_assoc_string, append_String.
Qed.

Lemma filter_truthy_nonempty (xs : list string) :
  Forall (fun x => x <> "") (List.filter truthy xs).
Proof.
  apply List.Forall_forall. intros x Hx. apply filter_In in Hx as [_ Hx].
  now apply truthy_true_iff.
Qed.

(** X17.  [classNames] drops the empty entries and puts one blank between the
    others; it is the empty string only when every entry is empty.  Class
    lists can be built in pieces: joining two results gives the result of
    the joined lists. *)
Theorem classNames_composes (xs ys : list string) :
  classNames [classNames xs; classNames ys] = classNames (xs ++ ys)
  /\ (classNames xs = "" <-> Forall (fun x => x = "") xs)
  /\ classNames ("" :: xs) = classNames xs.
Proof.
  unfold classNames.
  pose proof (filter_truthy_nonempty xs) as Hxs.
  pose proof (filter_truthy_nonempty ys) as Hys.
  pose proof (join_space_empty_iff _ Hxs) as Ex.
  pose proof (join_space_empty_iff _ Hys) as Ey.
  split; [| split; [| reflexivity]].
  - rewrite List.filter_app. cbn [List.filter].
    destruct (List.filter truthy xs) as [| x xs'] eqn:Fx.
    + cbn [join_space app]. cbn [truthy String.eqb negb].
      destruct (truthy (join_space (List.filter truthy ys))) eqn:Ty;
        [reflexivity |].
      apply truthy_false_iff in Ty. rewrite Ty. reflexivity.
    + assert (Tx : truthy (join_space (x :: xs')) = true).
      { apply truthy_true_iff. intros H. apply Ex in H. discriminate. }
      rewrite Tx.
      destruct (List.filter truthy ys) as [| y ys'] eqn:Fy.
      * cbn [join_space truthy String.eqb negb]. now rewrite app_nil_r.
      * assert (Ty : truthy (join_space (y :: ys')) = true).
        { apply truthy_true_iff. intros H. apply Ey in H. discriminate. }
        rewrite Ty. rewrite join_space_app by discriminate. reflexivity.
  - rewrite Ex. split.
    + intros H. apply List.Forall_forall. intros x Hx.
      destruct (truthy x) eqn:Tx; [| now apply truthy_false_iff].
      assert (Hin : In x (List.filter truthy xs)) by (apply filter_In; now split).
      rewrite H in Hin. destruct Hin.
    + intros H. induction xs as [| x xs IH]; [reflexivity |].
      apply Forall_cons in H as [-> H]. cbn [List.filter truthy String.eqb negb].
      apply IH; [apply filter_truthy_nonempty | | exact H].
      apply join_space_empty_iff, filter_truthy_nonempty.
Qed.

Lemma classNames_composes_witness :
  classNames [classNames ["flex gap-3"; ""]; classNames [""; "justify-end"]]
  = "flex gap-3 justify-end".
Proof.
  rewrite (proj1 (classNames_composes ["flex gap-3"; ""] [""; "justify-end"])).
  reflexivity.
Defined.

(* ===================================================================== *)
(** ** Properties: [trim] *)
(* ===================================================================== *)

Lemma append_empty_r (s : string) : s ++ "" = s.
Proof.
  induction s as [| c s IH]; [reflexivity |]. now rewrite append_String, IH.
Qed.

Lemma rev_append_reverse (s acc : string) :
  rev_append s acc = reverse s ++ acc.
Proof.
  unfold reverse. revert acc. induction s as [| c s IH]; intros acc; [reflexivity |].
  cbn [rev_append]. rewrite (IH (String c acc)), (IH (String c "")).
  now rewrite append_assoc_string, append_String, append_empty.
Qed.

Lemma reverse_String (c : ascii) (s : string) :
  reverse (String c s) = reverse s ++ String c "".
Proof. unfold reverse at 1. cbn [rev_append]. apply rev_append_reverse. Qed.

Lemma reverse_app (a b : string) : reverse (a ++ b) = reverse b ++ reverse a.
Proof.
  induction a as [| c a IH].
  - rewrite append_empty. change (reverse "") with "". now rewrite append_empty_r.
  - rewrite append_String, !reverse_String, IH. apply append_assoc_string.
Qed.

Lemma reverse_involutive (s : string) : reverse (reverse s) = s.
Proof.
  induction s as [| c s IH]; [reflexivity |].
  rewrite reverse_String, reverse_app, IH. reflexivity.
Qed.

Lemma length_append (a b : string) :
  String.length (a ++ b) = (String.length a + String.length b)%nat.
Proof.
  induction a as [| c a IH]; [reflexivity |].
  rewrite append_String. cbn [String.length]. now rewrite IH.
Qed.

(** The bytes of the white-space characters longer than one byte are all
    outside ASCII. *)
Lemma ws2_high (a b : ascii) :
  ws2 a b = true -> (128 <= code a)%N /\ (128 <= code b)%N.
Proof.
  unfold ws2. rewrite andb_true_iff, !N.eqb_eq. lia.
Qed.

Lemma ws3_high (a b c : ascii) :
  ws3 a b c = true -> (128 <= code a)%N /\ (128 <= code b)%N /\ (128 <= code c)%N.
Proof.
  unfold ws3. cbv zeta.
  rewrite !orb_true_iff, !andb_true_iff, !orb_true_iff, !andb_true_iff,
    !N.eqb_eq, !N.leb_le.
  lia.
Qed.

Lemma visible_inv (c : ascii) :
  visible c = true -> ws1 c = false /\ (code c < 128)%N.
Proof.
  unfold visible. rewrite andb_true_iff, negb_true_iff, N.ltb_lt. tauto.
Qed.

(** [trimStart] by cases on the head of the string. *)
Lemma trimStart_cases (s : string) :
  (starts_ws s = false /\ trimStart s = s)
  \/ (starts_ws s = true
      /\ exists p r, s = p ++ r /\ p <> "" /\ trimStart s = trimStart r
                  /\ forall c, mentions c p = true -> ws1 c = true \/ (128 <= code c)%N).
Proof.
  destruct s as [| c1 r1]; [left; split; reflexivity |].
  cbn [trimStart starts_ws]. destruct (ws1 c1) eqn:H1.
  { right. split; [reflexivity |]. exists (String c1 ""), r1. repeat split; [discriminate |].
    intros c Hc. cbn in Hc. rewrite orb_false_r in Hc.
    apply Ascii.eqb_eq in Hc. subst. now left. }
  destruct r1 as [| c2 r2]; [left; split; reflexivity |].
  destruct (ws2 c1 c2) eqn:H2.
  { right. split; [reflexivity |]. exists (String c1 (String c2 "")), r2. repeat split; [discriminate |].
    apply ws2_high in H2. intros c Hc. cbn in Hc. rewrite orb_false_r in Hc.
    apply orb_true_iff in Hc as [Hc | Hc]; apply Ascii.eqb_eq in Hc; subst;
      right; tauto. }
  destruct r2 as [| c3 r3]; [left; split; reflexivity |].
  destruct (ws3 c1 c2 c3) eqn:H3.
  { right. split; [reflexivity |]. exists (String c1 (String c2 (String c3 ""))), r3.
    repeat split; [discriminate |].
    apply ws3_high in H3. intros c Hc. cbn in Hc. rewrite orb_false_r in Hc.
    repeat (apply orb_true_iff in Hc as [Hc | Hc]);
      apply Ascii.eqb_eq in Hc; subst; right; tauto. }
  left. split; reflexivity.
Qed.

Lemma trimStart_mirror_cases (s : string) :
  (starts_ws_mirror s = false /\ trimStart_mirror s = s)
  \/ (starts_ws_mirror s = true
      /\ exists p r, s = p ++ r /\ p <> "" /\ trimStart_mirror s = trimStart_mirror r
                  /\ forall c, mentions c p = true -> ws1 c = true \/ (128 <= code c)%N).
Proof.
  destruct s as [| c1 r1]; [left; split; reflexivity |].
  cbn [trimStart_mirror starts_ws_mirror]. destruct (ws1 c1) eqn:H1.
  { right. split; [reflexivity |]. exists (String c1 ""), r1. repeat split; [discriminate |].
    intros c Hc. cbn in Hc. rewrite orb_false_r in Hc.
    apply Ascii.eqb_eq in Hc. subst. now left. }
  destruct r1 as [| c2 r2]; [left; split; reflexivity |].
  destruct (ws2 c2 c1) eqn:H2.
  { right. split; [reflexivity |]. exists (String c1 (String c2 "")), r2. repeat split; [discriminate |].
    apply ws2_high in H2. intros c Hc. cbn in Hc. rewrite orb_false_r in Hc.
    apply orb_true_iff in Hc as [Hc | Hc]; apply Ascii.eqb_eq in Hc; subst;
      right; tauto. }
  destruct r2 as [| c3 r3]; [left; split; reflexivity |].
  destruct (ws3 c3 c2 c1) eqn:H3.
  { right. split; [reflexivity |]. exists (String c1 (String c2 (String c3 ""))), r3.
    repeat split; [discriminate |].
    apply ws3_high in H3. intros c Hc. cbn in Hc. rewrite orb_false_r in Hc.
    repeat (apply orb_true_iff in Hc as [Hc | Hc]);
      apply Ascii.eqb_eq in Hc; subst; right; tauto. }
  left. split; reflexivity.
Qed.

Lemma mentions_app (c : ascii) (a b : string) :
  mentions c (a ++ b) = mentions c a || mentions c b.
Proof.
  induction a as [| x a IH]; [reflexivity |].
  rewrite append_String. cbn [mentions]. now rewrite IH, orb_assoc.
Qed.

(** A string cut in two ways, the second cut before the first occurrence
    of [c]. *)
Lemma split_before (c : ascii) (p : string) :
  forall a b t,
    a ++ String c b = p ++ t -> mentions c p = false ->
    exists a', a = p ++ a' /\ t = a' ++ String c b.
Proof.
  induction p as [| x p IH]; intros a b t Heq Hc.
  - exists a. split; [reflexivity | now rewrite append_empty in Heq].
  - cbn [mentions] in Hc. apply orb_false_iff in Hc as [Hx Hp].
    rewrite append_String in Heq. destruct a as [| y a].
    + rewrite append_empty in Heq. injection Heq as -> _.
      rewrite Ascii.eqb_refl in Hx. discriminate.
    + rewrite append_String in Heq. injection Heq as -> Heq.
      destruct (IH a b t Heq Hp) as (a' & -> & ->).
      exists a'. split; reflexivity.
Qed.

Section Stripping.

(** What [trimStart] and its mirror image have in common. *)
Variable strip : string -> string.
Variable head_ws : string -> bool.

Hypothesis strip_cases :
  forall s,
    (head_ws s = false /\ strip s = s)
    \/ (head_ws s = true
        /\ exists p r, s = p ++ r /\ p <> "" /\ strip s = strip r
                       /\ forall c, mentions c p = true
                                    -> ws1 c = true \/ (128 <= code c)%N).

Lemma strip_spec_upto (n : nat) :
  forall s, (String.length s <= n)%nat ->
    exists p, s = p ++ strip s
              /\ head_ws (strip s) = false
              /\ forall c, mentions c p = true -> ws1 c = true \/ (128 <= code c)%N.
Proof.
  induction n as [| n IH]; intros s Hlen.
  - destruct s; [| cbn in Hlen; lia].
    destruct (strip_cases "") as [(Hh & Hs) | (_ & p & r & Heq & Hp & _)].
    + exists "". rewrite Hs. repeat split; [exact Hh | discriminate].
    + destruct p; [congruence | rewrite append_String in Heq; discriminate].
  - destruct (strip_cases s) as [(Hh & Hs) | (_ & p & r & Heq & Hp & Hs & Hws)].
    + exists "". rewrite Hs. repeat split; [exact Hh | discriminate].
    + assert (Hr : (String.length r <= n)%nat).
      { subst s. rewrite length_append in Hlen.
        destruct p; [congruence | cbn in Hlen; lia]. }
      destruct (IH r Hr) as (p' & Hr' & Hh & Hws').
      exists (p ++ p'). rewrite Hs. split; [| split; [exact Hh |]].
      * rewrite append_assoc_string, <- Hr'. exact Heq.
      * intros c Hc. rewrite mentions_app in Hc.
        apply orb_true_iff in Hc as [Hc | Hc]; [now apply Hws | now apply Hws'].
Qed.

Lemma strip_spec (s : string) :
  exists p, s = p ++ strip s
            /\ head_ws (strip s) = false
            /\ forall c, mentions c p = true -> ws1 c = true \/ (128 <= code c)%N.
Proof. apply (strip_spec_upto (String.length s)). lia. Qed.

Lemma strip_stable (s : string) : head_ws s = false -> strip s = s.
Proof.
  intros Hh. destruct (strip_cases s) as [(_ & Hs) | (Ht & _)]; [exact Hs | congruence].
Qed.

Lemma strip_idempotent (s : string) : strip (strip s) = strip s.
Proof.
  destruct (strip_spec s) as (p & _ & Hh & _). now apply strip_stable.
Qed.

Lemma strip_keeps_visible (a b : string) (c : ascii) :
  visible c = true ->
  exists p a', a = p ++ a' /\ strip (a ++ String c b) = a' ++ String c b.
Proof.
  intros Hv. apply visible_inv in Hv as (Hw & Hlow).
  destruct (strip_spec (a ++ String c b)) as (p & Heq & _ & Hws).
  assert (Hc : mentions c p = false).
  { destruct (mentions c p) eqn:Hm; [| reflexivity].
    destruct (Hws c Hm) as [H | H]; [congruence | lia]. }
  destruct (split_before c p a b _ Heq Hc) as (a' & Ha & Ht).
  exists p, a'. split; [exact Ha | exact Ht].
Qed.

End Stripping.

Lemma starts_ws_prefix (u q : string) :
  starts_ws (u ++ q) = false -> starts_ws u = false.
Proof.
  destruct u as [| c1 [| c2 [| c3 u]]]; [reflexivity | | |];
    rewrite ?append_String, ?append_empty; cbn [starts_ws].
  - intros H. apply orb_false_iff in H as [-> _]. reflexivity.
  - intros H. apply orb_false_iff in H as [-> H].
    apply orb_false_iff in H as [-> _]. reflexivity.
  - intros H. exact H.
Qed.

Lemma trimEnd_is_prefix (t : string) : exists q, t = trimEnd t ++ q.
Proof.
  destruct (strip_spec trimStart_mirror starts_ws_mirror trimStart_mirror_cases
                       (reverse t)) as (p & Heq & _).
  exists (reverse p). unfold trimEnd.
  rewrite <- reverse_app, <- Heq. now rewrite reverse_involutive.
Qed.

Lemma trimEnd_idempotent (t : string) : trimEnd (trimEnd t) = trimEnd t.
Proof.
  unfold trimEnd. rewrite reverse_involutive.
  now rewrite (strip_idempotent trimStart_mirror starts_ws_mirror
                                trimStart_mirror_cases).
Qed.

(** X18.  [trim] is idempotent: what it returns has no white space left at
    either end.  The question [send] puts into the chat and uses as the
    cache key is therefore its own trimmed form. *)
Theorem trim_idempotent (s : string) (w : World) :
  (trim (trim s) = trim s
   /\ starts_ws (trim s) = false
   /\ starts_ws_mirror (reverse (trim s)) = false)
  /\ trim (question (closure_of w)) = question (closure_of w).
Proof.
  assert (Hfix : forall s, trim (trim s) = trim s
                           /\ starts_ws (trim s) = false
                           /\ starts_ws_mirror (reverse (trim s)) = false);
    [clear s; intros s | split; [apply Hfix | apply (Hfix (input (state w)))]].
  unfold trim.
  destruct (strip_spec trimStart starts_ws trimStart_cases s) as (p & _ & Hh & _).
  destruct (trimEnd_is_prefix (trimStart s)) as (q & Hq).
  assert (Hu : starts_ws (trimEnd (trimStart s)) = false).
  { apply (starts_ws_prefix _ q). now rewrite <- Hq. }
  split; [| split; [exact Hu |]].
  - rewrite (strip_stable trimStart starts_ws trimStart_cases _ Hu).
    apply trimEnd_idempotent.
  - unfold trimEnd. rewrite reverse_involutive.
    destruct (strip_spec trimStart_mirror starts_ws_mirror trimStart_mirror_cases
                         (reverse (trimStart s))) as (p' & _ & Hm & _).
    exact Hm.
Qed.

(** [trim] removes nothing from the first visible ASCII character on up
    to the last one: the character stays, with everything between it and
    the other end of what is kept. *)
Lemma trim_keeps_visible (a b : string) (c : ascii) :
  visible c = true ->
  exists p a' b' q,
    a = p ++ a' /\ b = b' ++ q /\ trim (a ++ String c b) = a' ++ String c b'.
Proof.
  intros Hv. unfold trim.
  destruct (strip_keeps_visible trimStart starts_ws trimStart_cases a b c Hv)
    as (p & a' & Ha & ->).
  unfold trimEnd. rewrite reverse_app, reverse_String, append_assoc_string.
  rewrite append_String, append_empty.
  destruct (strip_keeps_visible trimStart_mirror starts_ws_mirror
              trimStart_mirror_cases (reverse b) (reverse a') c Hv)
    as (q & b' & Hb & ->).
  exists p, a', (reverse b'), (reverse q). split; [exact Ha |]. split.
  - rewrite <- reverse_app, <- Hb. now rewrite reverse_involutive.
  - rewrite reverse_app, reverse_String, reverse_involutive.
    rewrite append_assoc_string, append_String, append_empty. reflexivity.
Qed.

Lemma trimStart_visible_head (c : ascii) (r : string) :
  visible c = true -> trimStart (String c r) = String c r.
Proof.
  intros Hv.
  destruct (strip_keeps_visible trimStart starts_ws trimStart_cases "" r c Hv)
    as (p & a' & Ha & Ht).
  rewrite append_empty in Ht. rewrite Ht.
  destruct p; [| rewrite append_String in Ha; discriminate].
  rewrite append_empty in Ha. subst a'. apply append_empty.
Qed.

Lemma trimEnd_visible_last (d : ascii) (x : string) :
  visible d = true -> trimEnd (x ++ String d "") = x ++ String d "".
Proof.
  intros Hv. unfold trimEnd.
  rewrite reverse_app, reverse_String. change (reverse "") with "".
  rewrite append_empty, append_String, append_empty.
  destruct (strip_keeps_visible trimStart_mirror starts_ws_mirror
              trimStart_mirror_cases "" (reverse x) d Hv)
    as (p & a' & Ha & Ht).
  rewrite append_empty in Ht. rewrite Ht.
  destruct p; [| rewrite append_String in Ha; discriminate].
  rewrite append_empty in Ha. subst a'. rewrite append_empty.
  rewrite reverse_String, reverse_involutive. reflexivity.
Qed.

Lemma trim_not_blank (a b : string) (c : ascii) :
  visible c = true -> trim (a ++ String c b) <> "".
Proof.
  intros Hv.
  destruct (trim_keeps_visible a b c Hv) as (p & a' & b' & q & _ & _ & ->).
  destruct a'; [rewrite append_empty | rewrite append_String]; discriminate.
Qed.

(** X19.  Text with a visible ASCII character in it is never taken for blank,
    and [trim] leaves text alone that begins and ends with visible ASCII
    characters, blanks in between included.  So a call of [send] with
    such an input and nothing under way is not stopped by the first
    guard. *)
Theorem visible_text_is_not_blank :
  (forall (a b : string) (c : ascii),
     visible c = true -> trim (a ++ String c b) <> "")
  /\ (forall (m : string) (c d : ascii),
        visible c = true -> visible d = true ->
        trim (String c (m ++ String d "")) = String c (m ++ String d ""))
  /\ (forall c : ascii, visible c = true -> trim (String c "") = String c "")
  /\ (forall (w : World) (a b : string) (c : ascii),
        visible c = true -> input (state w) = a ++ String c b ->
        busy w = false ->
        send_begin w <> (w, [], None)).
Proof.
  pose proof trim_not_blank as H1.
  split; [exact H1 |]. split; [| split].
  - intros m c d Hc Hd. unfold trim.
    rewrite (trimStart_visible_head c _ Hc).
    rewrite <- append_String. now apply trimEnd_visible_last.
  - intros c Hc. unfold trim.
    rewrite (trimStart_visible_head c _ Hc).
    rewrite <- (append_empty (String c "")). now apply trimEnd_visible_last.
  - intros w a b c Hv Hin Hb Heq.
    rewrite send_begin_cases in Heq.
    pose proof (H1 a b c Hv) as Hne. rewrite <- Hin in Hne.
    apply truthy_true_iff in Hne. rewrite Hne, Hb in Heq. cbn [negb orb] in Heq.
    destruct (negb (truthy (configured_key w))); [discriminate |].
    destruct (cacheRef w !! trim (input (state w))).
    + injection Heq as Hw. apply (f_equal (fun x => reads x)) in Hw.
      cbn in Hw. lia.
    + discriminate.
Qed.

Lemma visible_text_is_not_blank_witness :
  trim ("  " ++ String "h" "i  ") <> ""
  /\ send_begin (typed_world "k" ("  " ++ String "h" "i  "))
     <> (typed_world "k" ("  " ++ String "h" "i  "), [], None).
Proof.
  destruct visible_text_is_not_blank as (Hne & _ & _ & Hsend).
  split.
  - apply Hne. reflexivity.
  - apply (Hsend _ "  " "i  " "h"%char); reflexivity.
Defined.

Lemma trim_visible_head (c : ascii) (r : string) :
  visible c = true -> exists r', trim (String c r) = String c r'.
Proof.
  intros Hv.
  destruct (trim_keeps_visible "" r c Hv) as (p & a' & b' & q & Ha & _ & Ht).
  rewrite append_empty in Ht. exists b'. rewrite Ht.
  destruct p; [| rewrite append_String in Ha; discriminate].
  rewrite append_empty in Ha. subst a'. apply append_empty.
Qed.

Lemma template_head (cmd template : string) :
  template_of cmd = Some template ->
  exists c r, template = String c r /\ visible c = true /\ c <> "/"%char.
Proof.
  unfold template_of.
  repeat match goal with
         | |- context [String.eqb ?a ?b] => destruct (String.eqb a b)
         end;
    intros [= <-]; eexists; eexists;
    (split; [vm_compute; reflexivity | split; [reflexivity | discriminate]]).
Qed.

(** X20.  Command expansion happens once: what [routeSlashCommand] returns is
    never a command itself, so routing it again changes nothing. *)
Theorem routeSlashCommand_idempotent (text : string) :
  routeSlashCommand (routeSlashCommand text) = routeSlashCommand text
  /\ (routeSlashCommand text <> text ->
      startsWith (trim (routeSlashCommand text)) "/" = false).
Proof.
  assert (Hexp : forall template body cmd,
            template_of cmd = Some template ->
            startsWith (trim (template ++ body)) "/" = false).
  { intros template body cmd Ht.
    destruct (template_head cmd template Ht) as (c & r & -> & Hv & Hc).
    rewrite append_String.
    destruct (trim_visible_head c (r ++ body) Hv) as (r' & ->).
    cbn [startsWith]. destruct (Ascii.eqb_spec "/"%char c); [congruence |].
    reflexivity. }
  rewrite (routeSlashCommand_cases text).
  destruct (startsWith (trim text) "/") eqn:Hs; [| split; [| congruence]].
  - destruct (template_of (toLowerCase (command_token (slice1 (trim text)))))
      as [template |] eqn:Ht.
    + pose proof (Hexp template (remainder_body (slice1 (trim text))) _ Ht) as Hno.
      split; [| intros _; exact Hno].
      rewrite (routeSlashCommand_cases (template ++ _)), Hno. reflexivity.
    + split; [| congruence].
      rewrite (routeSlashCommand_cases text), Hs, Ht. reflexivity.
  - rewrite (routeSlashCommand_cases text), Hs. reflexivity.
Qed.

Lemma routeSlashCommand_idempotent_witness :
  startsWith (trim (routeSlashCommand "/reframe /coach me")) "/" = false.
Proof.
  apply (proj2 (routeSlashCommand_idempotent "/reframe /coach me")).
  vm_compute. discriminate.
Defined.

Lemma offered_reply_is_plain (s : State) (q : string) :
  In q (quickReplies_memo s) ->
  trim q = q /\ exists c b, q = String c b /\ visible c = true.
Proof.
  unfold quickReplies_memo.
  destruct (negb (quickReplies s)); [intros [] |].
  destruct (last_assistant (chat s)) as [last |]; [| intros []].
  destruct (sentimentScore (text last) <? 0)%Z; cbn [firstn base_replies In];
    intros H;
    repeat (destruct H as [<- | H];
            [split; [vm_compute; reflexivity
                    | eexists; eexists; split; reflexivity] |]);
    destruct H.
Qed.

(** X12.  A click on any quick reply on offer leaves an input that [send]
    does not take for blank; on an empty input the input becomes the
    reply, and it is what [send] will ask, letter for letter. *)
Theorem quick_reply_is_sendable (s : State) (q : string) :
  In q (quickReplies_memo s) ->
  trim (input (click_quick_reply q s)) <> ""
  /\ (input s = "" -> trim (input (click_quick_reply q s)) = q)
  /\ (input s <> "" -> input (click_quick_reply q s) = input s ++ " " ++ q).
Proof.
  intros Hq. destruct (offered_reply_is_plain s q Hq) as (Ht & c & b & -> & Hv).
  unfold click_quick_reply. cbn [input with_input with_chat_input].
  split; [| split].
  - apply trim_not_blank. exact Hv.
  - intros ->. cbn [truthy String.eqb negb]. rewrite append_empty. exact Ht.
  - intros Hne. apply truthy_true_iff in Hne. rewrite Hne.
    apply append_assoc_string.
Qed.

Lemma quick_reply_is_sendable_witness :
  trim (input (click_quick_reply "Tell me more" (state after_first_send)))
  = "Tell me more".
Proof.
  refine (proj1 (proj2 (quick_reply_is_sendable (state after_first_send)
                                                "Tell me more" _)) _).
  - vm_compute. tauto.
  - reflexivity.
Defined.

(* ===================================================================== *)
(** ** Further properties of the sentiment score *)
(* ===================================================================== *)

Lemma lower_ascii_idempotent (c : ascii) :
  lower_ascii (lower_ascii c) = lower_ascii c.
Proof. destruct c as [[] [] [] [] [] [] [] []]; reflexivity. Qed.

Lemma toLowerCase_idempotent (s : string) :
  toLowerCase (toLowerCase s) = toLowerCase s.
Proof.
  induction s as [| c s IH]; [reflexivity |].
  cbn [toLowerCase]. now rewrite lower_ascii_idempotent, IH.
Qed.

Lemma hits_range (ws : list string) (text : string) :
  (0 <= hits ws text <= Z.of_nat (length ws))%Z.
Proof.
  unfold hits. pose proof (filter_length_le (includes (toLowerCase text)) ws). lia.
Qed.

Lemma hits_positive (ws : list string) (text : string) :
  (0 < hits ws text)%Z ->
  exists w, In w ws /\ includes (toLowerCase text) w = true.
Proof.
  unfold hits. intros H.
  destruct (List.filter (includes (toLowerCase text)) ws) as [| w l] eqn:E;
    [cbn in H; lia |].
  exists w. apply filter_In. rewrite E. now left.
Qed.

(** X21.  The score lies between -22 and 11, it does not depend on letter
    case, and its sign tells which keywords there are: a negative score
    needs a negative keyword in the text, a positive score a positive
    one, and a text with no keyword at all scores 0. *)
Theorem sentimentScore_range_and_case (text : string) :
  (-22 <= sentimentScore text <= 11)%Z
  /\ sentimentScore (toLowerCase text) = sentimentScore text
  /\ ((sentimentScore text < 0)%Z ->
      exists w, In w NEG /\ includes (toLowerCase text) w = true)
  /\ ((0 < sentimentScore text)%Z ->
      exists w, In w POS /\ includes (toLowerCase text) w = true)
  /\ ((forall w, In w keywords -> includes (toLowerCase text) w = false) ->
      sentimentScore text = 0%Z).
Proof.
  rewrite !sentimentScore_hits.
  pose proof (hits_range POS text) as Hp. pose proof (hits_range NEG text) as Hn.
  change (Z.of_nat (length POS)) with 11%Z in Hp.
  change (Z.of_nat (length NEG)) with 22%Z in Hn.
  split; [lia |]. split; [| split; [| split]].
  - unfold hits. now rewrite toLowerCase_idempotent.
  - intros H. apply hits_positive. lia.
  - intros H. apply hits_positive. lia.
  - intros Hnone.
    assert (Hz : forall ws, incl ws keywords -> hits ws text = 0%Z).
    { intros ws Hin. unfold hits.
      destruct (List.filter (includes (toLowerCase text)) ws) as [| w l] eqn:E;
        [reflexivity |].
      assert (Hw : In w (List.filter (includes (toLowerCase text)) ws))
        by (rewrite E; now left).
      apply filter_In in Hw as [Hw Hinc].
      rewrite (Hnone w (Hin w Hw)) in Hinc. discriminate. }
    rewrite (Hz POS), (Hz NEG); [reflexivity | |].
    + apply incl_appl, incl_refl.
    + apply incl_appr, incl_refl.
Qed.

Lemma sentimentScore_range_and_case_witness :
  exists w, In w NEG /\ includes (toLowerCase "So TIRED and Sad. Tired!") w = true.
Proof.
  apply (proj1 (proj2 (proj2 (@sentimentScore_range_and_case
                                "So TIRED and Sad. Tired!")))).
  vm_compute. reflexivity.
Defined.
